(** * PyThresh thresholders: AUCP, DECOMP, FGD, HIST and MCST

    A shallow embedding of [pythresh/thresholds/{aucp,decomp,fgd,hist,mcst}.py].

    Conventions.
    - Scores are exact rationals ([Q]); numpy's binary64 rounding of score
      arithmetic is not modelled, and [x / 0] is [0] here where numpy yields
      [nan] or [inf].  The one place where binary64 rounding decides an
      integer, [int(len(decision)*0.7)] in [HIST.eval], is modelled
      bit-exactly with the kernel's primitive floats.
    - Python exceptions are values of [exn]; a computation that can raise
      returns a [result].
    - An instance ([self]) is a record; [eval] takes the instance and returns
      the updated instance together with the labels or the exception.
    - Routines of scipy and scikit-learn (density and distribution
      estimators, the area under a curve, the Shapiro-Wilk p-value, PCA/NMF,
      the uniform sampler, [uniform_filter1d], [log], [sqrt]) are parameters
      of the sections that use them: total functions, whose own argument
      checks are left out, but for the one that [AUCP.eval] runs into:
      [sklearn.metrics.auc] refuses a curve of fewer than two points.
    - [thresh_utility.py] ([normalize], [cut], [gen_kde], [gen_cdf]) is not
      among the sources; module [Utility] models it from the specification.

    The definitions come first, class by class; the theorems follow, in
    sections that take the same parameters. *)

From Stdlib Require Import ZArith QArith Qabs Qround Qminmax List Bool Lia Lqa
  Sorted.
From Stdlib Require PrimFloat FloatOps SpecFloat Uint63.
Import ListNotations.

Set Implicit Arguments.

(** ** Exceptions and results *)

Inductive exn : Type :=
| ValueError
| IndexError
| ZeroDivisionError
| OverflowError
| Diverge.   (* a [while] loop that did not stop within the given fuel *)

Inductive result (A : Type) : Type :=
| Ok (a : A)
| Raise (e : exn).

Arguments Ok {A} a.
Arguments Raise {A} e.

Definition bind {A B : Type} (r : result A) (k : A -> result B) : result B :=
  match r with
  | Ok a => k a
  | Raise e => Raise e
  end.

Declare Scope py_scope.
Delimit Scope py_scope with py.
Notation "x <- c ;; k" := (bind c (fun x => k))
  (at level 61, c at next level, right associativity) : py_scope.
Notation "' ( x , y ) <- c ;; k" := (bind c (fun p => let '(x, y) := p in k))
  (at level 61, c at next level, right associativity) : py_scope.

(** ** Rational comparisons as booleans *)

Definition Qltb (x y : Q) : bool :=
  match Qcompare x y with Lt => true | _ => false end.

Definition Qleb (x y : Q) : bool :=
  match Qcompare x y with Gt => false | _ => true end.

Definition Qgtb (x y : Q) : bool := Qltb y x.
Definition Qgeb (x y : Q) : bool := Qleb y x.

(** ** Python and numpy primitives on sequences *)

(** [l[i]] for a non-negative index. *)
Definition py_index {A : Type} (l : list A) (i : nat) : result A :=
  match nth_error l i with
  | Some a => Ok a
  | None => Raise IndexError
  end.

(** [l[:-1]], [l[1:]], [l[::-1]] and [l[i:]]. *)
Definition but_last {A : Type} (l : list A) : list A := removelast l.
Definition from_1 {A : Type} (l : list A) : list A := tl l.
Definition reversed {A : Type} (l : list A) : list A := rev l.
Definition from_i {A : Type} (i : nat) (l : list A) : list A := skipn i l.

Definition Qsum (l : list Q) : Q := fold_left Qplus l 0%Q.

(** [np.cumsum]. *)
Fixpoint cumsum_from (acc : Q) (l : list Q) : list Q :=
  match l with
  | [] => []
  | x :: r => (acc + x)%Q :: cumsum_from (acc + x)%Q r
  end.

Definition np_cumsum (l : list Q) : list Q := cumsum_from 0%Q l.

(** [np.min] and [np.max]: [ValueError] on an empty array. *)
Definition Qmin_list (x : Q) (l : list Q) : Q := fold_left Qmin l x.
Definition Qmax_list (x : Q) (l : list Q) : Q := fold_left Qmax l x.

Definition np_min (l : list Q) : result Q :=
  match l with
  | [] => Raise ValueError
  | x :: r => Ok (Qmin_list x r)
  end.

Definition np_max (l : list Q) : result Q :=
  match l with
  | [] => Raise ValueError
  | x :: r => Ok (Qmax_list x r)
  end.

(** [np.argmax] and [np.argmin]: index of the first extremum, [ValueError]
    on an empty array. *)
Fixpoint arg_best (better : Q -> Q -> bool) (best : Q) (besti i : nat)
  (l : list Q) : nat :=
  match l with
  | [] => besti
  | x :: r =>
      if better x best then arg_best better x i (S i) r
      else arg_best better best besti (S i) r
  end.

Definition np_argmax (l : list Q) : result nat :=
  match l with
  | [] => Raise ValueError
  | x :: r => Ok (arg_best Qgtb x 0%nat 1%nat r)
  end.

Definition np_argmin (l : list Q) : result nat :=
  match l with
  | [] => Raise ValueError
  | x :: r => Ok (arg_best Qltb x 0%nat 1%nat r)
  end.

(** [np.mean]. *)
Definition np_mean (l : list Q) : Q := (Qsum l / inject_Z (Z.of_nat (length l)))%Q.

(** [np.median]: the middle of the sorted values, the mean of the two middle
    ones when their number is even. *)
Fixpoint Qinsert (x : Q) (l : list Q) : list Q :=
  match l with
  | [] => [x]
  | y :: r => if Qleb x y then x :: y :: r else y :: Qinsert x r
  end.

Definition Qsort (l : list Q) : list Q := fold_right Qinsert [] l.

Definition np_median (l : list Q) : Q :=
  let s := Qsort l in
  let n := length l in
  if Nat.even n
  then ((nth (n / 2 - 1) s 0 + nth (n / 2) s 0) / 2)%Q
  else nth (n / 2) s 0%Q.

(** [np.linspace(low, high, n)]. *)
Definition np_linspace (low high : Q) (n : nat) : list Q :=
  let step := ((high - low) / inject_Z (Z.of_nat (n - 1)))%Q in
  map (fun i => (low + inject_Z (Z.of_nat i) * step)%Q) (seq 0 n).

(** [np.gradient(f, h)] with a scalar spacing: central differences inside,
    one-sided differences at both ends; [ValueError] below two elements. *)
Definition gradient (f : list Q) (h : Q) : list Q :=
  let n := length f in
  map (fun i =>
         if (i =? 0)%nat then ((nth 1 f 0 - nth 0 f 0) / h)%Q
         else if (i =? n - 1)%nat then ((nth (n - 1) f 0 - nth (n - 2) f 0) / h)%Q
         else ((nth (i + 1) f 0 - nth (i - 1) f 0) / (2 * h))%Q)
      (seq 0 n).

Definition np_gradient (f : list Q) (h : Q) : result (list Q) :=
  if (length f <? 2)%nat then Raise ValueError else Ok (gradient f h).

(** [check_array(decision, ensure_2d=False)]: an empty array is rejected.
    Shape and numeric type are fixed by the type [list Q]. *)
Definition check_array (decision : list Q) : result (list Q) :=
  match decision with
  | [] => Raise ValueError
  | _ => Ok decision
  end.

(** ** thresh_utility *)

Module Utility.

(** Modelled from the spec: [normalize], of [thresh_utility.py], absent from
    the sources.  "linear rescale to [0,1]: (v - min(v)) / (max(v) - min(v))". *)
Definition normalize (v : list Q) : list Q :=
  match v with
  | [] => []
  | x :: r =>
      let lo := Qmin_list x r in
      let hi := Qmax_list x r in
      map (fun y => ((y - lo) / (hi - lo))%Q) v
  end.

(** Modelled from the spec: [cut], of [thresh_utility.py], absent from the
    sources.  "label 1 where raw > limit, else 0; length-preserving". *)
Definition cut (raw : list Q) (limit : Q) : list Z :=
  map (fun x => if Qgtb x limit then 1%Z else 0%Z) raw.

(** Modelled from the spec: [gen_kde], of [thresh_utility.py], absent from
    the sources.  "fit a kernel density estimate to v, evaluate at n evenly
    spaced points in [low, high]; returns (values, grid)".  The estimator
    fitted to [v] and evaluated at a point is the parameter [kde]. *)
Definition gen_kde (kde : list Q -> Q -> Q) (v : list Q) (low high : Q) (n : nat)
  : list Q * list Q :=
  let grid := np_linspace low high n in
  (map (kde v) grid, grid).

(** Modelled from the spec: [gen_cdf], of [thresh_utility.py], absent from
    the sources.  "analogous, but evaluates an empirical cumulative
    distribution estimate".  The estimator is the parameter [cdf]. *)
Definition gen_cdf (cdf : list Q -> Q -> Q) (v : list Q) (low high : Q) (n : nat)
  : list Q * list Q :=
  let grid := np_linspace low high n in
  (map (cdf v) grid, grid).

End Utility.

(** ** AUCP: area under curve percentage ([aucp.py]) *)

Module AUCP.

Record t : Type := { thresh_ : option Q }.

(** [__init__(self)]: no attribute is set. *)
Definition init : t := {| thresh_ := None |}.

Section Eval.

(** The kernel density estimate fitted to a sample, at a point. *)
Variable kde : list Q -> Q -> Q.
(** The area under the curve through the points [(x, y)] by the trapezoidal
    rule, as [sklearn.metrics.auc(x, y)] gives it for a curve it accepts. *)
Variable auc : list Q -> list Q -> Q.

(** [sklearn.metrics.auc(x, y)]: [ValueError] on a curve of fewer than two
    points ([x.shape[0] < 2]).  Its two other checks pass on every call of
    [eval]: [x] and [y] are a grid, or the end of one, and as many values,
    and the grid is increasing. *)
Definition metrics_auc (x y : list Q) : result Q :=
  if (length x <? 2)%nat then Raise ValueError else Ok (auc x y).

(** [med + abs(med - np.mean(decision))]. *)
Definition percentage (decision : list Q) : Q :=
  let med := np_median decision in
  (med + Qabs (med - np_mean decision))%Q.

(** The [for i in range(len(dat_range))] loop with its [break]; [idxs] are
    the indices still to visit and [limit] the value held before the loop.
    At the last index of [dat_range] one point is left and [auc] raises. *)
Fixpoint scan (dat_range val : list Q) (bound : Q) (idxs : list nat) (limit : Q)
  : result Q :=
  match idxs with
  | [] => Ok limit
  | i :: rest =>
      (splt_area <- metrics_auc (from_i i dat_range) (from_i i val) ;;
       if Qltb splt_area bound
       then py_index dat_range i
       else scan dat_range val bound rest limit)%py
  end.

(** The body of [eval] up to the threshold and the labels. *)
Definition eval_body (decision : list Q) : result (Q * list Z) :=
  (decision <- check_array decision ;;
   let decision := Utility.normalize decision in
   let '(val, dat_range) := Utility.gen_kde kde decision 0 1 (length decision * 2) in
   let val := Utility.normalize val in
   tot_area <- metrics_auc dat_range val ;;
   let perc := percentage decision in
   limit <- scan dat_range val (perc * tot_area)%Q (seq 0 (length dat_range)) 1%Q ;;
   Ok (limit, Utility.cut decision limit))%py.

Definition eval (self : t) (decision : list Q) : t * result (list Z) :=
  match eval_body decision with
  | Ok (limit, labels) => ({| thresh_ := Some limit |}, Ok labels)
  | Raise e => (self, Raise e)
  end.

(** The area from index [i] to the end is below the bound. *)
Definition crossing (dat_range val : list Q) (bound : Q) (i : nat) : Prop :=
  (auc (from_i i dat_range) (from_i i val) < bound)%Q.

End Eval.

End AUCP.

(** ** FGD: fixed gradient descent ([fgd.py]) *)

Module FGD.

Record t : Type := { thresh_ : option Q }.

(** [__init__(self)]: no attribute is set. *)
Definition init : t := {| thresh_ := None |}.

(** [(deriv[i]>0)&(deriv[i+1]<=0)]. *)
Definition turns_down (a b : Q) : bool := Qgtb a 0 && Qleb b 0.

(** The loop that collects the first two inflection indices, with its
    [break] on [count==2]. *)
Fixpoint find_inflections (deriv : list Q) (idxs : list nat)
  (count : nat) (ind : list nat) : result (list nat) :=
  match idxs with
  | [] => Ok ind
  | i :: rest =>
      (a <- py_index deriv i ;;
       b <- py_index deriv (i + 1) ;;
       if turns_down a b then
         let count := (count + 1)%nat in
         let ind := ind ++ [i] in
         if (count =? 2)%nat then Ok ind
         else find_inflections deriv rest count ind
       else find_inflections deriv rest count ind)%py
  end.

(** [try: limit = (dat_range[ind[0]]+dat_range[ind[1]])/2
     except IndexError: limit = 1.1]. *)
Definition midpoint_or_default (dat_range : list Q) (ind : list nat) : result Q :=
  match (i0 <- py_index ind 0 ;;
         x0 <- py_index dat_range i0 ;;
         i1 <- py_index ind 1 ;;
         x1 <- py_index dat_range i1 ;;
         Ok ((x0 + x1) / 2)%Q)%py with
  | Ok limit => Ok limit
  | Raise IndexError => Ok (11 # 10)%Q
  | Raise e => Raise e
  end.

Section Eval.

(** The kernel density estimate fitted to a sample, at a point. *)
Variable kde : list Q -> Q -> Q.

Definition eval_body (decision : list Q) : result (Q * list Z) :=
  (decision <- check_array decision ;;
   let decision := Utility.normalize decision in
   let '(val, dat_range) := Utility.gen_kde kde decision 0 1 (length decision * 3) in
   d1 <- py_index dat_range 1 ;;
   d0 <- py_index dat_range 0 ;;
   deriv <- np_gradient val (d1 - d0)%Q ;;
   ind <- find_inflections deriv (seq 0 (length deriv - 1)) 0 [] ;;
   limit <- midpoint_or_default dat_range ind ;;
   Ok (limit, Utility.cut decision limit))%py.

Definition eval (self : t) (decision : list Q) : t * result (list Z) :=
  match eval_body decision with
  | Ok (limit, labels) => ({| thresh_ := Some limit |}, Ok labels)
  | Raise e => (self, Raise e)
  end.

(** [deriv] turns down between [i] and [i+1]. *)
Definition transition_at (deriv : list Q) (i : nat) : bool :=
  turns_down (nth i deriv 0%Q) (nth (i + 1) deriv 0%Q).

End Eval.

End FGD.

(** ** DECOMP: decomposition based thresholder ([decomp.py]) *)

Module DECOMP.

(** The keys of [method_funcs]. *)
Inductive method_t : Type := NMF | PCA.

Record t : Type := { method : method_t; thresh_ : option Q }.

(** [__init__(self, method='PCA')]. *)
Definition init (method : method_t) : t := {| method := method; thresh_ := None |}.
Definition default : t := init PCA.

(** [method_funcs]: both estimators are built with [random_state=1234]. *)
Definition estimator_random_state : Z := 1234%Z.

(** [if limit>0.5: limit = 1-limit]. *)
Definition reflect (limit : Q) : Q :=
  if Qgtb limit (1 # 2) then (1 - limit)%Q else limit.

Section Eval.

(** The cumulative distribution estimate fitted to a sample, at a point. *)
Variable cdf : list Q -> Q -> Q.
(** [fit_transform] of the estimator of the given kind and [random_state] on
    a single-feature matrix (one row per value); the result is the
    transformed matrix, read row by row. *)
Variable fit_transform : method_t -> Z -> list Q -> list Q.

Definition eval_body (self : t) (decision : list Q) : result (Q * list Z) :=
  (decision <- check_array decision ;;
   let decision := Utility.normalize decision in
   let '(val, dat_range) := Utility.gen_cdf cdf decision 0 1 (length decision * 3) in
   let val := Utility.normalize val in
   let dec := fit_transform (method self) estimator_random_state val in
   limit <- np_max dec ;;
   let limit := reflect limit in
   Ok (limit, Utility.cut decision limit))%py.

Definition eval (self : t) (decision : list Q) : t * result (list Z) :=
  match eval_body self decision with
  | Ok (limit, labels) =>
      ({| method := method self; thresh_ := Some limit |}, Ok labels)
  | Raise e => (self, Raise e)
  end.

End Eval.

End DECOMP.

(** ** MCST: Monte Carlo Shapiro tests ([mcst.py]) *)

Module MCST.

(** [random_state] is an integer seed or [None]. *)
Record t : Type := { random_state : option Z; thresh_ : option Q }.

(** [__init__(self, random_state=1234)]. *)
Definition init (random_state : option Z) : t :=
  {| random_state := random_state; thresh_ := None |}.
Definition default : t := init (Some 1234%Z).

Section Eval.

(** [stats.shapiro(x).pvalue]. *)
Variable shapiro_pvalue : list Q -> Q.
(** The state of numpy's global generator, and
    [stats.uniform.rvs(loc=0, scale=1, size=n, random_state=...)]: with an
    integer seed the draw is a function of the seed and leaves the global
    generator alone; with [None] it is taken from the global generator,
    which advances. *)
Variable rng : Type.
Variable rvs_seeded : Z -> nat -> list Q.
Variable rvs_global : rng -> nat -> list Q * rng.

Definition uniform_rvs (random_state : option Z) (n : nat) (g : rng)
  : list Q * rng :=
  match random_state with
  | Some seed => (rvs_seeded seed n, g)
  | None => rvs_global g n
  end.

(** The loop over [rnd[i]], [i] in [range(len(rnd))]: [p_std] is the best
    p-value so far and [povr] the recorded samples. *)
Fixpoint search (decision rnd : list Q) (p_std : Q) (povr : list Q)
  : Q * list Q :=
  match rnd with
  | [] => (p_std, povr)
  | r :: rest =>
      let arr := decision ++ [r] in
      let p_check := shapiro_pvalue arr in
      if Qgtb p_check p_std
      then search decision rest p_check (povr ++ [r])
      else search decision rest p_std povr
  end.

(** [np.min(povr) if povr else 1.1]. *)
Definition min_or_default (povr : list Q) : Q :=
  match povr with
  | [] => (11 # 10)%Q
  | x :: r => Qmin_list x r
  end.

Definition eval_body (self : t) (g : rng) (decision : list Q)
  : rng * result (Q * list Z) :=
  match check_array decision with
  | Raise e => (g, Raise e)
  | Ok decision =>
      let decision := Utility.normalize decision in
      let p_std := shapiro_pvalue decision in
      let '(rnd, g) := uniform_rvs (random_state self) (length decision) g in
      let rnd := Utility.normalize rnd in
      let '(_, povr) := search decision rnd p_std [] in
      let limit := min_or_default povr in
      (g, Ok (limit, Utility.cut decision limit))
  end.

Definition eval (self : t) (g : rng) (decision : list Q)
  : t * rng * result (list Z) :=
  match eval_body self g decision with
  | (g, Ok (limit, labels)) =>
      ({| random_state := random_state self; thresh_ := Some limit |}, g, Ok labels)
  | (g, Raise e) => (self, g, Raise e)
  end.

(** [greedy p best samples recorded]: going through [samples] in order with
    [best] as the best p-value so far, a sample is recorded, and its p-value
    becomes the best, exactly when its p-value is strictly above the best. *)
Inductive greedy (p : Q -> Q) : Q -> list Q -> list Q -> Prop :=
| greedy_done (best : Q) : greedy p best [] []
| greedy_record (best r : Q) (rest recorded : list Q) :
    (best < p r)%Q ->
    greedy p (p r) rest recorded ->
    greedy p best (r :: rest) (r :: recorded)
| greedy_skip (best r : Q) (rest recorded : list Q) :
    ~ (best < p r)%Q ->
    greedy p best rest recorded ->
    greedy p best (r :: rest) recorded.

End Eval.

End MCST.

(** ** HIST: histogram based thresholders ([hist.py]) *)

(** *** More numpy primitives *)

(** Element-wise binary operation on arrays of one length. *)
Definition map2 {A B C : Type} (f : A -> B -> C) (l1 : list A) (l2 : list B)
  : list C :=
  map (fun p => f (fst p) (snd p)) (combine l1 l2).

(** [l[i]] for an integer index: a negative index counts from the end. *)
Definition py_index_Z {A : Type} (l : list A) (i : Z) : result A :=
  let n := Z.of_nat (length l) in
  if (i <? - n)%Z || (n <=? i)%Z then Raise IndexError
  else py_index l (Z.to_nat (if (i <? 0)%Z then i + n else i)%Z).

(** [l[a:b]] for [0 <= a]. *)
Definition slice {A : Type} (a b : nat) (l : list A) : list A :=
  firstn (b - a) (skipn a l).

(** [l[i] = v] for an index in range, and [l[idx] = v] for an index array. *)
Definition assign {A : Type} (i : nat) (v : A) (l : list A) : list A :=
  firstn i l ++ v :: skipn (S i) l.

Definition assign_all {A : Type} (idx : list nat) (v : A) (l : list A) : list A :=
  fold_left (fun l i => assign i v l) idx l.

(** [np.where(mask)[0]]: the indices at which the mask holds. *)
Definition np_where {A : Type} (mask : A -> bool) (l : list A) : list nat :=
  filter (fun i => match nth_error l i with Some x => mask x | None => false end)
    (seq 0 (length l)).

(** [a[mask]]: boolean selection. *)
Definition select {A : Type} (mask : list bool) (l : list A) : list A :=
  map snd (filter fst (combine mask l)).

(** [np.average(a, weights=w)]: [ZeroDivisionError] when the weights sum to
    zero. *)
Definition np_average (a w : list Q) : result Q :=
  let scl := Qsum w in
  if Qeq_bool scl 0 then Raise ZeroDivisionError
  else Ok (Qsum (map2 Qmult a w) / scl)%Q.

(** [np.unique]: the sorted distinct values. *)
Fixpoint dedup (l : list Q) : list Q :=
  match l with
  | x :: (y :: _) as r => if Qeq_bool x y then dedup r else x :: dedup r
  | _ => l
  end.

Definition np_unique (l : list Q) : list Q := dedup (Qsort l).

(** [np.diff]. *)
Definition np_diff (l : list Q) : list Q := map2 Qminus (from_1 l) (but_last l).

(** *** Binary64 arithmetic of [int(len(decision)*0.7)] *)

Module Binary64.

Import PrimFloat.

(** [int(x)] for a binary64 [x]: truncation toward zero; [OverflowError] on
    an infinity and [ValueError] on a nan. *)
Definition py_int (x : float) : result Z :=
  match FloatOps.Prim2SF x with
  | SpecFloat.S754_zero _ => Ok 0%Z
  | SpecFloat.S754_finite s m e =>
      let a := (if 0 <=? e then Z.pos m * 2 ^ e else Z.pos m / 2 ^ (- e))%Z in
      Ok (if s then - a else a)%Z
  | SpecFloat.S754_infinity _ => Raise OverflowError
  | SpecFloat.S754_nan => Raise ValueError
  end.

(** [n * x] for a Python [int] [n] (below 2^63) and a binary64 [x]. *)
Definition py_int_times_float (n : nat) (x : float) : float :=
  mul (of_uint63 (Uint63.of_Z (Z.of_nat n))) x.

(** The literal [0.7]: the nearest binary64, 6305039478318694 * 2^-53. *)
Definition lit_0_7 : float := 0x1.6666666666666p-1%float.

End Binary64.

Module HIST.

(** The keys of [method_funcs]. *)
Inductive method_t : Type := otsu | yen | isodata | li | minimum | triangle.

Record t : Type := {
  nbins : option Z;
  method : method_t;
  thresh_ : option Q
}.

(** [__init__(self, method='otsu', nbins=None)]. *)
Definition init (method : method_t) (nbins : option Z) : t :=
  {| nbins := nbins; method := method; thresh_ := None |}.
Definition default : t := init otsu None.

(** [int(len(decision)*0.7)]. *)
Definition default_nbins (n : nat) : result Z :=
  Binary64.py_int (Binary64.py_int_times_float n Binary64.lit_0_7).

(** [np.histogram(a, bins=nbins, range=(0,1))]: the values outside the range
    are dropped, bin [i] is [[i/nbins, (i+1)/nbins)] and the last bin also
    holds 1; [ValueError] unless [nbins] is positive. *)
Definition bin_of (nbins : nat) (x : Q) : nat :=
  if Qeq_bool x 1 then (nbins - 1)%nat
  else Z.to_nat (Qfloor (x * inject_Z (Z.of_nat nbins))).

Definition np_histogram (a : list Q) (nbins : Z) : result (list Z * list Q) :=
  if (nbins <? 1)%Z then Raise ValueError
  else
    let n := Z.to_nat nbins in
    let kept := filter (fun x => Qleb 0 x && Qleb x 1) a in
    let counts :=
      map (fun i => Z.of_nat (length (filter (fun x => (bin_of n x =? i)%nat) kept)))
        (seq 0 n) in
    Ok (counts, np_linspace 0 1 (n + 1)).

(** [histogram(decision, nbins)]. *)
Definition histogram (decision : list Q) (nbins : Z) : result (list Q * list Z) :=
  ('(counts, bin_edges) <- np_histogram decision nbins ;;
   let bin_centers :=
     map (fun c => (c / 2)%Q) (map2 Qplus (but_last bin_edges) (from_1 bin_edges)) in
   Ok (bin_centers, counts))%py.

(** [find_local_maxima_idx(hist)]. *)
Fixpoint local_maxima_loop (hist : list Q) (idxs : list nat) (direction : Z)
  (maximum_idxs : list nat) : result (list nat) :=
  match idxs with
  | [] => Ok maximum_idxs
  | i :: rest =>
      (a <- py_index hist i ;;
       b <- py_index hist (i + 1) ;;
       if (direction >? 0)%Z then
         if Qltb b a
         then local_maxima_loop hist rest (-1)%Z (maximum_idxs ++ [i])
         else local_maxima_loop hist rest direction maximum_idxs
       else
         if Qgtb b a
         then local_maxima_loop hist rest 1%Z maximum_idxs
         else local_maxima_loop hist rest direction maximum_idxs)%py
  end.

Definition find_local_maxima_idx (hist : list Q) : result (list nat) :=
  local_maxima_loop hist (seq 0 (length hist - 1)) 1%Z [].

(** [counts.astype(float)]. *)
Definition astype_float (counts : list Z) : list Q := map inject_Z counts.

(** [OTSU_thres(bin_centers, counts)]. *)
Definition OTSU_thres (bin_centers : list Q) (counts : list Z) : result Q :=
  let counts := astype_float counts in
  let weight1 := np_cumsum counts in
  let weight2 := reversed (np_cumsum (reversed counts)) in
  let mean1 := map2 Qdiv (np_cumsum (map2 Qmult counts bin_centers)) weight1 in
  let mean2 :=
    reversed (map2 Qdiv (np_cumsum (reversed (map2 Qmult counts bin_centers)))
                (reversed weight2)) in
  let variance12 :=
    map2 Qmult (map2 Qmult (but_last weight1) (from_1 weight2))
      (map (fun d => d ^ 2)%Q (map2 Qminus (but_last mean1) (from_1 mean2))) in
  (idx <- np_argmax variance12 ;;
   py_index bin_centers idx)%py.

(** [ISODATA_thres(bin_centers, counts)]. *)
Definition ISODATA_thres (bin_centers : list Q) (counts : list Z) : result Q :=
  let counts := astype_float counts in
  let csuml := np_cumsum counts in
  (csuml_last <- py_index_Z csuml (-1) ;;
   let csumh := map (fun c => csuml_last - c)%Q csuml in
   let intensity_sum := map2 Qmult counts bin_centers in
   let csum_intensity := np_cumsum intensity_sum in
   let lower := map2 Qdiv (but_last csum_intensity) (but_last csuml) in
   csum_intensity_last <- py_index_Z csum_intensity (-1) ;;
   let higher :=
     map2 Qdiv (map (fun c => csum_intensity_last - c)%Q (but_last csum_intensity))
       (but_last csumh) in
   let all_mean := map (fun m => m / 2)%Q (map2 Qplus lower higher) in
   c1 <- py_index bin_centers 1 ;;
   c0 <- py_index bin_centers 0 ;;
   let bin_width := (c1 - c0)%Q in
   let distances := map2 Qminus all_mean (but_last bin_centers) in
   let mask := map (fun d => Qgeb d 0 && Qltb d bin_width) distances in
   py_index (select mask (but_last bin_centers)) 0)%py.

(** [k] is [x] rounded to a nearest integer, whichever way a tie goes: the
    reading of [round(0.7 * n)] that the bin count is compared with. *)
Definition nearest_integer (x : Q) (k : Z) : Prop :=
  (Qabs (x - inject_Z k) <= 1 # 2)%Q.

(** The truncated binary64 product against the exact [floor(7n/10)]: never
    above it, at most one below it, and equal to it when [n] is not a
    multiple of ten or is below 90. *)
Definition truncation_checked (n : nat) : bool :=
  match default_nbins n with
  | Ok k =>
      let f := (7 * Z.of_nat n / 10)%Z in
      ((f - 1 <=? k) && (k <=? f)
       && ((Z.of_nat n mod 10 =? 0) || (k =? f))
       && ((90 <=? Z.of_nat n) || (k =? f)))%Z
  | Raise _ => false
  end.

Section Methods.

(** [np.log], [np.sqrt] and [scipy.ndimage.uniform_filter1d(input, size)]. *)
Variable np_log : Q -> Q.
Variable np_sqrt : Q -> Q.
Variable uniform_filter1d : list Q -> nat -> list Q.

(** [YEN_thres(bin_centers, counts)]. *)
Definition YEN_thres (bin_centers : list Q) (counts : list Z) : result Q :=
  let total := inject_Z (fold_left Z.add counts 0%Z) in
  let pmf := map (fun c => c / total)%Q (astype_float counts) in
  let P1 := np_cumsum pmf in
  let P1_sq := np_cumsum (map (fun x => x ^ 2)%Q pmf) in
  let P2_sq := reversed (np_cumsum (map (fun x => x ^ 2)%Q (reversed pmf))) in
  let crit :=
    map np_log
      (map2 Qmult
         (map Qinv (map2 Qmult (but_last P1_sq) (from_1 P2_sq)))
         (map (fun x => (x * (1 - x)) ^ 2)%Q (but_last P1))) in
  (idx <- np_argmax crit ;;
   py_index bin_centers idx)%py.

(** The [while abs(t_next - t_curr)>tolerance] loop of [LI_thres]; it has no
    bound in the source, [fuel] bounds the number of rounds here. *)
Fixpoint li_loop (fuel : nat) (bin_centers counts : list Q)
  (tolerance t_next t_curr : Q) : result Q :=
  if Qgtb (Qabs (t_next - t_curr)) tolerance then
    match fuel with
    | O => Raise Diverge
    | S fuel =>
        let t_curr := t_next in
        let outlier := map (fun c => Qgtb c t_curr) bin_centers in
        let inlier := map negb outlier in
        (mean_out <- np_average (select outlier bin_centers) (select outlier counts) ;;
         mean_in <- np_average (select inlier bin_centers) (select inlier counts) ;;
         let t_next := ((mean_in - mean_out) / (np_log mean_in - np_log mean_out))%Q in
         li_loop fuel bin_centers counts tolerance t_next t_curr)%py
    end
  else Ok t_next.

(** [LI_thres(decision, bin_centers, counts)]. *)
Definition LI_thres (fuel : nat) (decision bin_centers : list Q) (counts : list Z)
  : result Q :=
  let counts := astype_float counts in
  (gap <- np_min (np_diff (np_unique decision)) ;;
   let tolerance := (gap / 2)%Q in
   let t_next := np_mean decision in
   let t_curr := (- (2) * tolerance)%Q in
   li_loop fuel bin_centers counts tolerance t_next t_curr)%py.

(** The [for counter in range(10000)] loop of [Minimum_thres], with its
    [break]; [n] rounds are left. *)
Fixpoint smooth_loop (n : nat) (smooth_hist : list Q) (maximum_idxs : list nat)
  : result (list Q * list nat) :=
  match n with
  | O => Ok (smooth_hist, maximum_idxs)
  | S n =>
      let smooth_hist := uniform_filter1d smooth_hist 3 in
      (maximum_idxs <- find_local_maxima_idx smooth_hist ;;
       if (length maximum_idxs <? 3)%nat then Ok (smooth_hist, maximum_idxs)
       else smooth_loop n smooth_hist maximum_idxs)%py
  end.

(** [Minimum_thres(bin_centers, counts)]. *)
Definition Minimum_thres (bin_centers : list Q) (counts : list Z) : result Q :=
  let smooth_hist := astype_float counts in
  ('(smooth_hist, maximum_idxs) <- smooth_loop (100 * 100) smooth_hist [] ;;
   m0 <- py_index maximum_idxs 0 ;;
   m1 <- py_index maximum_idxs 1 ;;
   threshold_idx <- np_argmin (slice m0 (m1 + 1) smooth_hist) ;;
   py_index bin_centers (m0 + threshold_idx))%py.

(** [a[idx]] for an index array. *)
Fixpoint take {A : Type} (l : list A) (idx : list Z) : result (list A) :=
  match idx with
  | [] => Ok []
  | i :: rest =>
      (x <- py_index_Z l i ;;
       xs <- take l rest ;;
       Ok (x :: xs))%py
  end.

(** [np.arange(n)]. *)
Definition np_arange (n : Z) : list Z := map Z.of_nat (seq 0 (Z.to_nat n)).

(** [Triangle_thres(bin_centers, counts)]. *)
Definition Triangle_thres (bin_centers : list Q) (counts : list Z) : result Q :=
  let nbins := Z.of_nat (length counts) in
  (arg_peak_height <- np_argmax (map inject_Z counts) ;;
   let arg_peak_height := Z.of_nat arg_peak_height in
   peak_height <- py_index_Z counts arg_peak_height ;;
   ends <- take (map Z.of_nat (np_where (fun c => 0 <? c)%Z counts)) [0; -1]%Z ;;
   let arg_low_level := nth 0 ends 0%Z in
   let arg_high_level := nth 1 ends 0%Z in
   let flip := (arg_peak_height - arg_low_level <? arg_high_level - arg_peak_height)%Z in
   let counts := if flip then reversed counts else counts in
   let arg_low_level := if flip then (nbins - arg_high_level - 1)%Z else arg_low_level in
   let arg_peak_height := if flip then (nbins - arg_peak_height - 1)%Z else arg_peak_height in
   let width := (arg_peak_height - arg_low_level)%Z in
   let x1 := np_arange width in
   y1 <- take counts (map (fun x => x + arg_low_level)%Z x1) ;;
   let norm := np_sqrt (inject_Z (peak_height ^ 2 + width ^ 2)) in
   let peak_height := (inject_Z peak_height / norm)%Q in
   let width := (inject_Z width / norm)%Q in
   let length :=
     map2 (fun x y => peak_height * inject_Z x - width * inject_Z y)%Q x1 y1 in
   arg_level <- np_argmax length ;;
   let arg_level := (Z.of_nat arg_level + arg_low_level)%Z in
   let arg_level := if flip then (nbins - arg_level - 1)%Z else arg_level in
   py_index_Z bin_centers arg_level)%py.

(** [self.method_funcs[str(self.method)]] applied as [eval] does: [li] also
    gets the scores. *)
Definition threshold_with (fuel : nat) (m : method_t)
  (decision bin_centers : list Q) (counts : list Z) : result Q :=
  match m with
  | otsu => OTSU_thres bin_centers counts
  | yen => YEN_thres bin_centers counts
  | isodata => ISODATA_thres bin_centers counts
  | li => LI_thres fuel decision bin_centers counts
  | minimum => Minimum_thres bin_centers counts
  | triangle => Triangle_thres bin_centers counts
  end.

(** [outliers = np.where(decision>threshold)]; [scores = np.zeros(...)];
    [scores[outliers] = 1]. *)
Definition label_above (decision : list Q) (threshold : Q) : list Z :=
  let outliers := np_where (fun x => Qgtb x threshold) decision in
  let scores := repeat 0%Z (length decision) in
  assign_all outliers 1%Z scores.

(** The part of [eval] after the bin count is settled. *)
Definition threshold_and_labels (fuel : nat) (m : method_t) (nbins : Z)
  (decision : list Q) : result (Q * list Z) :=
  ('(bin_centers, counts) <- histogram decision nbins ;;
   threshold <- threshold_with fuel m decision bin_centers counts ;;
   Ok (threshold, label_above decision threshold))%py.

(** [eval(self, decision)].  The bin count is stored on the instance before
    the histogram is built, so it stays there when a later step raises. *)
Definition eval (fuel : nat) (self : t) (decision : list Q) : t * result (list Z) :=
  match check_array decision with
  | Raise e => (self, Raise e)
  | Ok decision =>
      let decision := Utility.normalize decision in
      let resolved :=
        match nbins self with
        | None => default_nbins (length decision)
        | Some k => Ok k
        end in
      match resolved with
      | Raise e => (self, Raise e)
      | Ok k =>
          let self := {| nbins := Some k; method := method self;
                         thresh_ := thresh_ self |} in
          match threshold_and_labels fuel (method self) k decision with
          | Raise e => (self, Raise e)
          | Ok (threshold, scores) =>
              ({| nbins := nbins self; method := method self;
                  thresh_ := Some threshold |}, Ok scores)
          end
      end
  end.

End Methods.

End HIST.

(** ** The five thresholders behind one interface *)

Module Thresholders.

Section Strategies.

Variable kde : list Q -> Q -> Q.
Variable auc : list Q -> list Q -> Q.
Variable cdf : list Q -> Q -> Q.
Variable fit_transform : DECOMP.method_t -> Z -> list Q -> list Q.
Variable shapiro_pvalue : list Q -> Q.
Variable rng : Type.
Variable rvs_seeded : Z -> nat -> list Q.
Variable rvs_global : rng -> nat -> list Q * rng.
Variable np_log : Q -> Q.
Variable np_sqrt : Q -> Q.
Variable uniform_filter1d : list Q -> nat -> list Q.
(** The number of rounds allowed to Li's loop. *)
Variable fuel : nat.

(** An instance of one of the classes; for [MCST] together with the state
    of the global generator its [eval] may draw from. *)
Inductive strategy : Type :=
| Aucp (self : AUCP.t)
| Decomp (self : DECOMP.t)
| Fgd (self : FGD.t)
| Hist (self : HIST.t)
| Mcst (self : MCST.t) (g : rng).

Definition eval (s : strategy) (decision : list Q) : strategy * result (list Z) :=
  match s with
  | Aucp self =>
      let '(self, r) := AUCP.eval kde auc self decision in (Aucp self, r)
  | Decomp self =>
      let '(self, r) := DECOMP.eval cdf fit_transform self decision in (Decomp self, r)
  | Fgd self =>
      let '(self, r) := FGD.eval kde self decision in (Fgd self, r)
  | Hist self =>
      let '(self, r) :=
        HIST.eval np_log np_sqrt uniform_filter1d fuel self decision in
      (Hist self, r)
  | Mcst self g =>
      let '(self, g, r) :=
        MCST.eval shapiro_pvalue rvs_seeded rvs_global self g decision in
      (Mcst self g, r)
  end.

Definition thresh_ (s : strategy) : option Q :=
  match s with
  | Aucp self => AUCP.thresh_ self
  | Decomp self => DECOMP.thresh_ self
  | Fgd self => FGD.thresh_ self
  | Hist self => HIST.thresh_ self
  | Mcst self _ => MCST.thresh_ self
  end.

(** [MCST] built with an integer [random_state]; the other classes draw
    nothing. *)
Definition seeded (s : strategy) : Prop :=
  match s with
  | Mcst self _ => MCST.random_state self <> None
  | _ => True
  end.

End Strategies.

Arguments Aucp {rng} self.
Arguments Decomp {rng} self.
Arguments Fgd {rng} self.
Arguments Hist {rng} self.
Arguments Mcst {rng} self g.

End Thresholders.

(** ** Sample estimators and inputs *)

Module Samples.

(** A density estimate with a triangular kernel of half-width 1/4. *)
Definition tent_kde (v : list Q) (x : Q) : Q :=
  (Qsum (map (fun d => Qmax 0 (1 - 4 * Qabs (x - d))) v)
   / inject_Z (Z.of_nat (length v)))%Q.

(** A density estimate that is flat. *)
Definition flat_kde (v : list Q) (x : Q) : Q := 1%Q.

(** The trapezoidal rule. *)
Fixpoint trapz (x y : list Q) : Q :=
  match x, y with
  | x0 :: ((x1 :: _) as xs), y0 :: ((y1 :: _) as ys) =>
      ((x1 - x0) * (y0 + y1) / 2 + trapz xs ys)%Q
  | _, _ => 0%Q
  end.

(** The empirical distribution function. *)
Definition ecdf (v : list Q) (x : Q) : Q :=
  (inject_Z (Z.of_nat (length (filter (fun d => Qleb d x) v)))
   / inject_Z (Z.of_nat (length v)))%Q.

(** The one principal component of a single feature: the centred values. *)
Definition centred (m : DECOMP.method_t) (random_state : Z) (X : list Q) : list Q :=
  map (fun x => x - np_mean X)%Q X.

(** A stand-in for a normality p-value: one minus the distance between the
    mean and the median. *)
Definition closeness (l : list Q) : Q := (1 - Qabs (np_mean l - np_median l))%Q.

(** A linear congruential generator on 31 bits; [lcg_draw x n] gives [n]
    values in [0,1) and the state reached. *)
Definition lcg_next (x : Z) : Z := ((x * 1103515245 + 12345) mod 2 ^ 31)%Z.

Fixpoint lcg_draw (x : Z) (n : nat) : list Q * Z :=
  match n with
  | O => ([], x)
  | S n =>
      let x' := lcg_next x in
      let '(l, g) := lcg_draw x' n in
      ((x' # 2 ^ 31)%Q :: l, g)
  end.

Definition lcg_seeded (seed : Z) (n : nat) : list Q := fst (lcg_draw seed n).

(** A three-point moving average that repeats the end values. *)
Definition box_filter (l : list Q) (size : nat) : list Q :=
  map (fun i => ((nth (i - 1) l 0 + nth i l 0
                  + nth (Nat.min (i + 1) (length l - 1)) l 0) / 3)%Q)
    (seq 0 (length l)).

(** Rational stand-ins for the logarithm and the square root. *)
Definition log_standin (x : Q) : Q := (x - 1)%Q.
Definition sqrt_standin (x : Q) : Q := ((x + 1) / 2)%Q.

(** The thresholders over these samples. *)
Definition strategy : Type := Thresholders.strategy Z.

Definition eval : strategy -> list Q -> strategy * result (list Z) :=
  Thresholders.eval tent_kde trapz ecdf centred closeness lcg_seeded lcg_draw
    log_standin sqrt_standin box_filter 10.

Definition hist_eval : HIST.t -> list Q -> HIST.t * result (list Z) :=
  HIST.eval log_standin sqrt_standin box_filter 10.

(** The scores of the specification's Otsu example, and three more inputs. *)
Definition seven_scores : list Q :=
  [1 # 10; 2 # 10; 15 # 100; 9 # 10; 95 # 100; 12 # 100; 88 # 100]%Q.
Definition four_scores : list Q := [0; 1 # 10; 2 # 10; 1]%Q.
Definition six_scores : list Q := [0; 1 # 4; 1 # 4; 3 # 4; 3 # 4; 1]%Q.
Definition two_scores : list Q := [0; 1]%Q.

End Samples.

(** * Theorems *)

(** ** Comparisons, sequences and the utilities *)

Lemma Qltb_lt (x y : Q) : Qltb x y = true <-> (x < y)%Q.
Proof.
  unfold Qltb. rewrite Qlt_alt.
  destruct (x ?= y)%Q; split; congruence.
Qed.

Lemma Qltb_nlt (x y : Q) : Qltb x y = false <-> ~ (x < y)%Q.
Proof.
  rewrite <- Qltb_lt. destruct (Qltb x y); split; congruence.
Qed.

Lemma Qleb_le (x y : Q) : Qleb x y = true <-> (x <= y)%Q.
Proof.
  unfold Qleb. rewrite Qle_alt.
  destruct (x ?= y)%Q; split; congruence.
Qed.

Lemma Qgtb_gt (x y : Q) : Qgtb x y = true <-> (y < x)%Q.
Proof. apply Qltb_lt. Qed.

Lemma Qmin_list_le_init (l : list Q) (x : Q) : (Qmin_list x l <= x)%Q.
Proof.
  unfold Qmin_list. revert x.
  induction l as [|y l IH]; intros x; simpl.
  - apply Qle_refl.
  - eapply Qle_trans; [apply IH | apply Q.le_min_l].
Qed.

Lemma Qmin_list_le_in (l : list Q) (x y : Q) : In y l -> (Qmin_list x l <= y)%Q.
Proof.
  unfold Qmin_list. revert x.
  induction l as [|z l IH]; intros x; simpl; [tauto|].
  intros [->|Hin].
  - eapply Qle_trans; [apply (Qmin_list_le_init l) | apply Q.le_min_r].
  - apply IH, Hin.
Qed.

Lemma Qmax_list_ge_init (l : list Q) (x : Q) : (x <= Qmax_list x l)%Q.
Proof.
  unfold Qmax_list. revert x.
  induction l as [|y l IH]; intros x; simpl.
  - apply Qle_refl.
  - eapply Qle_trans; [apply Q.le_max_l | apply IH].
Qed.

Lemma Qmax_list_ge_in (l : list Q) (x y : Q) : In y l -> (y <= Qmax_list x l)%Q.
Proof.
  unfold Qmax_list. revert x.
  induction l as [|z l IH]; intros x; simpl; [tauto|].
  intros [->|Hin].
  - eapply Qle_trans; [apply Q.le_max_r | apply (Qmax_list_ge_init l)].
  - apply IH, Hin.
Qed.

Lemma Qmax_list_in (l : list Q) (x : Q) : In (Qmax_list x l) (x :: l).
Proof.
  unfold Qmax_list. revert x.
  induction l as [|y l IH]; intros x; simpl; [now left|].
  destruct (IH (Qmax x y)) as [H|H]; [|now right; right].
  rewrite <- H. unfold Qmax, GenericMinMax.gmax.
  destruct (x ?= y)%Q; auto.
Qed.

Lemma Qmin_list_in (l : list Q) (x : Q) : In (Qmin_list x l) (x :: l).
Proof.
  unfold Qmin_list. revert x.
  induction l as [|y l IH]; intros x; simpl; [now left|].
  destruct (IH (Qmin x y)) as [H|H]; [|now right; right].
  rewrite <- H. unfold Qmin, GenericMinMax.gmin.
  destruct (x ?= y)%Q; auto.
Qed.

(** [np.max] returns an element that bounds all the others. *)
Lemma np_max_spec (l : list Q) :
  l <> [] ->
  exists m, np_max l = Ok m /\ In m l /\ forall x, In x l -> (x <= m)%Q.
Proof.
  destruct l as [|x r]; [congruence|]. intros _.
  exists (Qmax_list x r). split; [reflexivity|]. split.
  - apply Qmax_list_in.
  - intros y [->|Hy]; [apply Qmax_list_ge_init | apply Qmax_list_ge_in, Hy].
Qed.

(** A quotient of a part by the whole lies between 0 and 1 (also when the
    whole is 0, where the quotient is 0). *)
Lemma Qdiv_part_whole (a b : Q) : (0 <= a)%Q -> (a <= b)%Q -> (0 <= a / b <= 1)%Q.
Proof.
  intros Ha Hab.
  destruct (Qlt_le_dec 0 b) as [Hb|Hb].
  - split.
    + apply Qle_shift_div_l; [exact Hb|]. rewrite Qmult_0_l. exact Ha.
    + apply Qle_shift_div_r; [exact Hb|]. rewrite Qmult_1_l. exact Hab.
  - assert (Hb0 : (b == 0)%Q).
    { apply Qle_antisym; [exact Hb | eapply Qle_trans; eauto]. }
    assert (H0 : (a / b == 0)%Q).
    { unfold Qdiv. rewrite Hb0. unfold Qinv; simpl. apply Qmult_0_r. }
    rewrite H0. split; discriminate.
Qed.

(** Normalized scores lie in [0,1]. *)
Lemma normalize_range (v : list Q) (y : Q) :
  In y (Utility.normalize v) -> (0 <= y <= 1)%Q.
Proof.
  destruct v as [|x r]; [simpl; tauto|].
  unfold Utility.normalize. rewrite in_map_iff.
  intros (z & <- & Hz).
  assert (Hlo : (Qmin_list x r <= z)%Q).
  { destruct Hz as [->|Hz];
      [apply Qmin_list_le_init | apply Qmin_list_le_in, Hz]. }
  assert (Hhi : (z <= Qmax_list x r)%Q).
  { destruct Hz as [->|Hz];
      [apply Qmax_list_ge_init | apply Qmax_list_ge_in, Hz]. }
  apply Qdiv_part_whole.
  - unfold Qminus. rewrite <- Qle_minus_iff. exact Hlo.
  - unfold Qminus. apply Qplus_le_l. exact Hhi.
Qed.

Lemma np_linspace_length (low high : Q) (n : nat) :
  length (np_linspace low high n) = n.
Proof. unfold np_linspace. now rewrite length_map, length_seq. Qed.

Lemma gradient_length (f : list Q) (h : Q) : length (gradient f h) = length f.
Proof. unfold gradient. now rewrite length_map, length_seq. Qed.

Lemma py_index_nth {A : Type} (l : list A) (i : nat) (d : A) :
  (i < length l)%nat -> py_index l i = Ok (nth i l d).
Proof.
  intros H. unfold py_index. now rewrite (nth_error_nth' l d H).
Qed.

Lemma normalize_length (v : list Q) :
  length (Utility.normalize v) = length v.
Proof.
  destruct v; [reflexivity|]. unfold Utility.normalize. apply length_map.
Qed.

Lemma cut_length (raw : list Q) (limit : Q) :
  length (Utility.cut raw limit) = length raw.
Proof. apply length_map. Qed.

Lemma cut_binary (raw : list Q) (limit : Q) (b : Z) :
  In b (Utility.cut raw limit) -> b = 0%Z \/ b = 1%Z.
Proof.
  unfold Utility.cut. rewrite in_map_iff. intros (x & <- & _).
  destruct (Qgtb x limit); auto.
Qed.

(** [cut] puts a 1 exactly where the score is strictly above the limit. *)
Lemma cut_spec (raw : list Q) (limit : Q) (i : nat) :
  nth_error (Utility.cut raw limit) i = Some 1%Z <->
  exists x, nth_error raw i = Some x /\ (limit < x)%Q.
Proof.
  unfold Utility.cut. rewrite nth_error_map.
  destruct (nth_error raw i) as [x|]; simpl.
  - destruct (Qgtb x limit) eqn:E.
    + apply Qgtb_gt in E. split; [eauto|reflexivity].
    + split; [discriminate|]. intros (y & [= <-] & Hy).
      apply Qgtb_gt in Hy. congruence.
  - split; [discriminate|]. intros (y & [=] & _).
Qed.

(** With a limit of at least 1 no normalized score is labelled. *)
Lemma cut_normalize_all_inliers (v : list Q) (limit : Q) :
  (1 <= limit)%Q ->
  Utility.cut (Utility.normalize v) limit = repeat 0%Z (length v).
Proof.
  intros Hl. rewrite <- (normalize_length v).
  assert (H : forall y, In y (Utility.normalize v) -> (y <= 1)%Q)
    by (intros y Hy; apply normalize_range in Hy; tauto).
  induction (Utility.normalize v) as [|y l IH]; [reflexivity|].
  simpl. rewrite IH by (intros; apply H; now right).
  destruct (Qgtb y limit) eqn:E; [|reflexivity].
  apply Qgtb_gt in E. exfalso.
  apply (Qlt_irrefl limit). eapply Qlt_le_trans; [exact E|].
  eapply Qle_trans; [apply H; now left | exact Hl].
Qed.

Lemma assign_length {A : Type} (i : nat) (v : A) (l : list A) :
  (i < length l)%nat -> length (assign i v l) = length l.
Proof.
  intros H. unfold assign.
  rewrite length_app, length_firstn. cbn [length]. rewrite length_skipn. lia.
Qed.

Lemma nth_error_assign {A : Type} (i j : nat) (v : A) (l : list A) :
  (i < length l)%nat ->
  nth_error (assign i v l) j = if (j =? i)%nat then Some v else nth_error l j.
Proof.
  intros H. unfold assign.
  assert (Hf : length (firstn i l) = i) by (rewrite length_firstn; lia).
  destruct (Nat.eqb_spec j i) as [->|Hne].
  - rewrite nth_error_app2 by lia. rewrite Hf, Nat.sub_diag. reflexivity.
  - destruct (Nat.lt_ge_cases j i) as [Hlt|Hge].
    + rewrite nth_error_app1 by lia. rewrite nth_error_firstn.
      destruct (Nat.ltb_spec j i); [reflexivity | lia].
    + rewrite nth_error_app2 by lia. rewrite Hf.
      replace (j - i)%nat with (S (j - S i)) by lia. cbn [nth_error].
      rewrite nth_error_skipn. f_equal. lia.
Qed.

Lemma assign_all_length {A : Type} (idx : list nat) (v : A) (l : list A) :
  (forall i, In i idx -> (i < length l)%nat) ->
  length (assign_all idx v l) = length l.
Proof.
  unfold assign_all. revert l.
  induction idx as [|i idx IH]; intros l H; [reflexivity|].
  simpl.
  assert (Hi : (i < length l)%nat) by (apply H; now left).
  rewrite IH; [apply assign_length, Hi|].
  intros k Hk. rewrite assign_length by exact Hi. apply H. now right.
Qed.

Lemma nth_error_assign_all {A : Type} (idx : list nat) (v : A) (l : list A) (j : nat) :
  (forall i, In i idx -> (i < length l)%nat) ->
  nth_error (assign_all idx v l) j
  = if existsb (Nat.eqb j) idx then Some v else nth_error l j.
Proof.
  unfold assign_all. revert l.
  induction idx as [|i idx IH]; intros l H; [reflexivity|].
  simpl.
  assert (Hi : (i < length l)%nat) by (apply H; now left).
  rewrite IH.
  - rewrite nth_error_assign by exact Hi.
    destruct (j =? i)%nat; simpl; [|reflexivity].
    now destruct (existsb (Nat.eqb j) idx).
  - intros k Hk. rewrite assign_length by exact Hi. apply H. now right.
Qed.

(** ** AUCP *)

Section AUCP_theory.

Import AUCP.

Variable kde : list Q -> Q -> Q.
Variable auc : list Q -> list Q -> Q.

Local Abbreviation scan := (AUCP.scan auc).
Local Abbreviation crossing := (AUCP.crossing auc).
Local Abbreviation eval_body := (AUCP.eval_body kde auc).
Local Abbreviation eval := (AUCP.eval kde auc).

Lemma metrics_auc_two (x y : list Q) :
  (2 <= length x)%nat -> AUCP.metrics_auc auc x y = Ok (auc x y).
Proof.
  intros H. unfold AUCP.metrics_auc.
  destruct (Nat.ltb_spec (length x) 2); [lia | reflexivity].
Qed.

Lemma metrics_auc_short (x y : list Q) :
  (length x < 2)%nat -> AUCP.metrics_auc auc x y = Raise ValueError.
Proof.
  intros H. unfold AUCP.metrics_auc.
  destruct (Nat.ltb_spec (length x) 2); [reflexivity | lia].
Qed.

Lemma from_i_length {A : Type} (i : nat) (l : list A) :
  length (from_i i l) = (length l - i)%nat.
Proof. apply length_skipn. Qed.

(** The loop breaks at the first crossing, when that is not at the last
    index. *)
Lemma scan_first (dat_range val : list Q) (bound limit : Q) (n a i : nat) (x : Q) :
  (a <= i < a + n)%nat ->
  (i + 2 <= length dat_range)%nat ->
  nth_error dat_range i = Some x ->
  crossing dat_range val bound i ->
  (forall j, (a <= j < i)%nat -> ~ crossing dat_range val bound j) ->
  scan dat_range val bound (seq a n) limit = Ok x.
Proof.
  revert a. induction n as [|n IH]; intros a Hi Hlast Hx Hc Hfirst; [lia|].
  cbn [seq AUCP.scan].
  rewrite metrics_auc_two by (rewrite from_i_length; lia). cbn [bind].
  destruct (Nat.eq_dec a i) as [->|Hne].
  - apply Qltb_lt in Hc. rewrite Hc. unfold py_index. now rewrite Hx.
  - assert (E : Qltb (auc (from_i a dat_range) (from_i a val)) bound = false).
    { apply Qltb_nlt. apply Hfirst. lia. }
    rewrite E. apply IH; auto; try lia.
    intros j Hj. apply Hfirst. lia.
Qed.

(** With no crossing before the last index, the loop gets there and [auc]
    raises on the one point that is left. *)
Lemma scan_no_crossing (dat_range val : list Q) (bound limit : Q) (n a : nat) :
  (1 <= n)%nat ->
  (a + n = length dat_range)%nat ->
  (forall j, (a <= j)%nat -> (j + 2 <= length dat_range)%nat ->
             ~ crossing dat_range val bound j) ->
  scan dat_range val bound (seq a n) limit = Raise ValueError.
Proof.
  revert a. induction n as [|n IH]; intros a Hn Hlen Hno; [lia|].
  cbn [seq AUCP.scan].
  destruct n as [|n].
  - rewrite metrics_auc_short by (rewrite from_i_length; lia). reflexivity.
  - rewrite metrics_auc_two by (rewrite from_i_length; lia). cbn [bind].
    assert (E : Qltb (auc (from_i a dat_range) (from_i a val)) bound = false).
    { apply Qltb_nlt. apply Hno; lia. }
    rewrite E. apply IH; try lia.
    intros j Hj Hj'. apply Hno; lia.
Qed.

(** What the loop returns is the grid value at an index before the last:
    never the [limit] held before the loop. *)
Lemma scan_returns_before_last (dat_range val : list Q) (bound limit : Q)
  (n a : nat) (x : Q) :
  (1 <= n)%nat ->
  (a + n = length dat_range)%nat ->
  scan dat_range val bound (seq a n) limit = Ok x ->
  exists i, (a <= i)%nat /\ (i + 2 <= length dat_range)%nat /\
            nth_error dat_range i = Some x.
Proof.
  revert a. induction n as [|n IH]; intros a Hn Hlen; [lia|].
  cbn [seq AUCP.scan].
  destruct n as [|n].
  - rewrite metrics_auc_short by (rewrite from_i_length; lia). discriminate.
  - rewrite metrics_auc_two by (rewrite from_i_length; lia). cbn [bind].
    destruct (Qltb _ bound).
    + unfold py_index. destruct (nth_error dat_range a) as [y|] eqn:E;
        [|discriminate].
      intros [= <-]. exists a. repeat split; [lia | lia | exact E].
    + intros H. destruct (IH (S a)) as (i & Hi & Hi' & Hx); try lia; [exact H|].
      exists i. repeat split; [lia | exact Hi' | exact Hx].
Qed.

(** A point of the grid over [[0, 1]] before the last is below 1. *)
Lemma np_linspace_before_last (m i : nat) (x : Q) :
  (i + 2 <= m)%nat -> nth_error (np_linspace 0 1 m) i = Some x -> (x < 1)%Q.
Proof.
  intros Hi Hx. unfold np_linspace in Hx.
  rewrite nth_error_map in Hx.
  destruct (nth_error (seq 0 m) i) as [k|] eqn:E; [|discriminate].
  apply (nth_error_nth _ _ 0%nat) in E. rewrite seq_nth in E by lia.
  simpl in E. subst k. injection Hx as <-.
  assert (Hd : (0 < inject_Z (Z.of_nat (m - 1)))%Q).
  { change 0%Q with (inject_Z 0). rewrite <- Zlt_Qlt. lia. }
  setoid_replace (0 + inject_Z (Z.of_nat i) * ((1 - 0) / inject_Z (Z.of_nat (m - 1))))%Q
    with (inject_Z (Z.of_nat i) / inject_Z (Z.of_nat (m - 1)))%Q
    by (unfold Qdiv; ring).
  apply Qlt_shift_div_r; [exact Hd|].
  rewrite Qmult_1_l. rewrite <- Zlt_Qlt. lia.
Qed.

(** The body of [eval] on a non-empty input: the total area is that of the
    whole grid, which has two points or more. *)
Lemma eval_body_scan (decision : list Q) :
  decision <> [] ->
  let nd := Utility.normalize decision in
  let grid := np_linspace 0 1 (length nd * 2) in
  let val := Utility.normalize (map (kde nd) grid) in
  (2 <= length grid)%nat /\
  eval_body decision
  = bind (scan grid val (percentage nd * auc grid val)%Q (seq 0 (length grid)) 1%Q)
      (fun limit => Ok (limit, Utility.cut nd limit)).
Proof.
  intros Hne nd grid val.
  assert (Hg : (2 <= length grid)%nat).
  { unfold grid, nd. rewrite np_linspace_length, normalize_length.
    destruct decision; [congruence | simpl; lia]. }
  split; [exact Hg|].
  unfold AUCP.eval_body.
  destruct decision as [|d ds]; [congruence|].
  cbn [check_array bind Utility.gen_kde]. fold nd. fold grid. fold val.
  rewrite metrics_auc_two by exact Hg. reflexivity.
Qed.

(** C4, and where the code parts from it.  [AUCP.eval] stores in [thresh_]
    the grid value at the first index, scanning the grid of [2n] points left
    to right, whose area from that index to the end of the normalized
    density values is strictly below [percentage * total area], with
    [percentage = median + |median - mean|] of the normalized scores, and
    labels the normalized scores by [cut] at that value: this holds when
    that index is not the last of the grid.  When no index before the last
    qualifies, the loop reaches the last index, where one point is left and
    [auc] raises [ValueError]: [eval] raises, and the instance is as it was.
    So the 1 held before the loop is never stored: the threshold of a call
    that returns is below 1. *)
Theorem eval_first_crossing (self : t) (decision : list Q) :
  decision <> [] ->
  let nd := Utility.normalize decision in
  let grid := np_linspace 0 1 (length nd * 2) in
  let val := Utility.normalize (map (kde nd) grid) in
  let perc := (np_median nd + Qabs (np_median nd - np_mean nd))%Q in
  let below i := (auc (from_i i grid) (from_i i val) < perc * auc grid val)%Q in
  (forall i x,
      (i + 2 <= length grid)%nat ->
      nth_error grid i = Some x ->
      below i ->
      (forall j, (j < i)%nat -> ~ below j) ->
      eval self decision = ({| thresh_ := Some x |}, Ok (Utility.cut nd x)))
  /\ ((forall i, (i + 2 <= length grid)%nat -> ~ below i) ->
      eval self decision = (self, Raise ValueError))
  /\ (forall self' labels,
        eval self decision = (self', Ok labels) ->
        exists x, thresh_ self' = Some x /\ (x < 1)%Q).
Proof.
  intros Hne nd grid val perc below.
  destruct (eval_body_scan Hne) as [Hg Hbody].
  fold nd grid val in Hg, Hbody. change (percentage nd) with perc in Hbody.
  split; [|split].
  - intros i x Hi Hx Hb Hfirst.
    unfold AUCP.eval. rewrite Hbody.
    rewrite (@scan_first grid val _ 1%Q (length grid) 0%nat i x); auto.
    + lia.
    + intros j Hj. apply Hfirst. lia.
  - intros Hnone.
    unfold AUCP.eval. rewrite Hbody.
    rewrite scan_no_crossing; [reflexivity | lia | reflexivity |].
    intros j _ Hj. apply Hnone, Hj.
  - intros self' labels. unfold AUCP.eval. rewrite Hbody.
    destruct (scan grid val _ _ _) as [x|e] eqn:Hs; cbn [bind]; [|discriminate].
    intros [= <- _]. exists x. split; [reflexivity|].
    destruct (@scan_returns_before_last grid val _ 1%Q (length grid) 0%nat x
                ltac:(lia) eq_refl Hs) as (i & _ & Hi & Hx).
    unfold grid in Hi, Hx. rewrite np_linspace_length in Hi.
    eapply np_linspace_before_last; [exact Hi | exact Hx].
Qed.

End AUCP_theory.

(** ** FGD *)

Section FGD_theory.

Import FGD.

Variable kde : list Q -> Q -> Q.

Local Abbreviation eval_body := (FGD.eval_body kde).
Local Abbreviation eval := (FGD.eval kde).

Lemma find_inflections_spec (deriv : list Q) (idxs : list nat) (ind : list nat) :
  (length ind < 2)%nat ->
  (forall i, In i idxs -> (i + 1 < length deriv)%nat) ->
  find_inflections deriv idxs (length ind) ind
  = Ok (ind ++ firstn (2 - length ind) (filter (transition_at deriv) idxs)).
Proof.
  revert ind. induction idxs as [|i rest IH]; intros ind Hlen Hin.
  - simpl. now rewrite firstn_nil, app_nil_r.
  - cbn [find_inflections filter].
    assert (Hi : (i + 1 < length deriv)%nat) by (apply Hin; now left).
    rewrite (py_index_nth deriv 0%Q) by lia.
    rewrite (py_index_nth deriv 0%Q) by lia.
    cbn [bind]. fold (transition_at deriv i).
    assert (Hrest : forall j, In j rest -> (j + 1 < length deriv)%nat)
      by (intros j Hj; apply Hin; now right).
    destruct (transition_at deriv i).
    + destruct ind as [|k [|k' ind']]; simpl in Hlen; try lia.
      * cbn [length Nat.add Nat.eqb app].
        exact (IH [i] (Nat.lt_succ_diag_r 1) Hrest).
      * cbn [length Nat.add Nat.eqb app Nat.sub firstn]. reflexivity.
    + apply IH; auto.
Qed.

Lemma midpoint_two (dat_range : list Q) (i0 i1 : nat) :
  (i0 < length dat_range)%nat -> (i1 < length dat_range)%nat ->
  midpoint_or_default dat_range [i0; i1]
  = Ok ((nth i0 dat_range 0 + nth i1 dat_range 0) / 2)%Q.
Proof.
  intros H0 H1. unfold midpoint_or_default. cbn [py_index nth_error bind].
  rewrite (py_index_nth dat_range 0%Q H0). cbn [bind].
  now rewrite (py_index_nth dat_range 0%Q H1).
Qed.

Lemma midpoint_fewer (dat_range : list Q) (ind : list nat) :
  (length ind < 2)%nat ->
  (forall i, In i ind -> (i < length dat_range)%nat) ->
  midpoint_or_default dat_range ind = Ok (11 # 10)%Q.
Proof.
  intros Hlen Hin. unfold midpoint_or_default.
  destruct ind as [|i0 [|i1 ind]]; simpl in Hlen; try lia; [reflexivity|].
  cbn [py_index nth_error bind].
  rewrite (py_index_nth dat_range 0%Q) by (apply Hin; now left).
  reflexivity.
Qed.

(** [eval] never raises on a non-empty input. *)
Lemma fgd_body_ok (decision : list Q) :
  decision <> [] -> exists limit,
    eval_body decision = Ok (limit, Utility.cut (Utility.normalize decision) limit).
Proof.
  intros Hne. unfold FGD.eval_body.
  destruct decision as [|d ds]; [congruence|].
  cbn [check_array bind Utility.gen_kde].
  set (nd := Utility.normalize (d :: ds)).
  set (grid := np_linspace 0 1 (length nd * 3)).
  assert (Hn : (1 <= length nd)%nat).
  { unfold nd. rewrite normalize_length. simpl. lia. }
  assert (Hg : length grid = (length nd * 3)%nat) by apply np_linspace_length.
  rewrite (py_index_nth grid 0%Q) by lia.
  rewrite (py_index_nth grid 0%Q) by lia.
  cbn [bind]. unfold np_gradient. rewrite length_map.
  destruct (Nat.ltb_spec (length grid) 2); [lia|]. cbn [bind].
  set (deriv := gradient (map (kde nd) grid) (nth 1 grid 0 - nth 0 grid 0)%Q).
  assert (Hd : length deriv = length grid).
  { unfold deriv. now rewrite gradient_length, length_map. }
  set (tr := filter (transition_at deriv) (seq 0 (length deriv - 1))).
  assert (Hloop : find_inflections deriv (seq 0 (length deriv - 1)) 0 []
                  = Ok (firstn 2 tr)).
  { apply (@find_inflections_spec deriv (seq 0 (length deriv - 1)) []).
    - simpl; lia.
    - intros i Hi. apply in_seq in Hi. lia. }
  rewrite Hloop. cbn [bind].
  assert (Hin : forall i, In i tr -> (i < length grid)%nat).
  { intros i Hi. apply filter_In in Hi. destruct Hi as [Hi _].
    apply in_seq in Hi. lia. }
  destruct tr as [|i0 [|i1 rest]]; cbn [firstn].
  - rewrite midpoint_fewer by (simpl; auto; intros ? []). cbn [bind]. eauto.
  - rewrite midpoint_fewer by (simpl; auto). cbn [bind]. eauto.
  - rewrite midpoint_two by (apply Hin; simpl; auto). cbn [bind]. eauto.
Qed.

(** C5.  [FGD.eval] stores in [thresh_] the midpoint of the grid locations
    of the first two indices [i], in increasing order, at which the discrete
    derivative of the density has [deriv[i] > 0] and [deriv[i+1] <= 0], and
    labels by [cut] at it; with fewer than two such indices [thresh_] is 1.1
    and every label is 0. *)
Theorem eval_inflection_midpoint (self : t) (decision : list Q) :
  decision <> [] ->
  let nd := Utility.normalize decision in
  let grid := np_linspace 0 1 (length nd * 3) in
  let deriv := gradient (map (kde nd) grid) (nth 1 grid 0 - nth 0 grid 0)%Q in
  let transitions :=
    filter (fun i => Qgtb (nth i deriv 0) 0 && Qleb (nth (i + 1) deriv 0) 0)
      (seq 0 (length deriv - 1)) in
  match transitions with
  | i0 :: i1 :: _ =>
      let limit := ((nth i0 grid 0 + nth i1 grid 0) / 2)%Q in
      eval self decision = ({| thresh_ := Some limit |}, Ok (Utility.cut nd limit))
  | _ =>
      eval self decision
      = ({| thresh_ := Some (11 # 10)%Q |}, Ok (repeat 0%Z (length decision)))
  end.
Proof.
  intros Hne nd grid deriv transitions.
  assert (Hn : (1 <= length nd)%nat).
  { unfold nd. rewrite normalize_length.
    destruct decision; [congruence | simpl; lia]. }
  assert (Hg : length grid = (length nd * 3)%nat) by apply np_linspace_length.
  assert (Hd : length deriv = length grid).
  { unfold deriv. now rewrite gradient_length, length_map. }
  assert (Hbody : eval_body decision
    = bind (find_inflections deriv (seq 0 (length deriv - 1)) 0 [])
        (fun ind => bind (midpoint_or_default grid ind)
           (fun limit => Ok (limit, Utility.cut nd limit)))).
  { unfold FGD.eval_body. destruct decision as [|d ds]; [congruence|].
    cbn [check_array bind Utility.gen_kde].
    fold nd. fold grid.
    rewrite (py_index_nth grid 0%Q) by lia.
    rewrite (py_index_nth grid 0%Q) by lia.
    cbn [bind]. unfold np_gradient.
    rewrite length_map.
    destruct (Nat.ltb_spec (length grid) 2); [lia|]. reflexivity. }
  assert (Hloop : find_inflections deriv (seq 0 (length deriv - 1)) 0 []
                  = Ok (firstn 2 transitions)).
  { apply (@find_inflections_spec deriv (seq 0 (length deriv - 1)) []).
    - simpl; lia.
    - intros i Hi. apply in_seq in Hi. lia. }
  assert (Hin : forall i, In i transitions -> (i < length grid)%nat).
  { intros i Hi. apply filter_In in Hi. destruct Hi as [Hi _].
    apply in_seq in Hi. lia. }
  unfold FGD.eval. rewrite Hbody, Hloop. cbn [bind].
  destruct transitions as [|i0 [|i1 rest]].
  - rewrite midpoint_fewer by (simpl; auto; intros ? []).
    cbn [bind]. unfold nd.
    rewrite cut_normalize_all_inliers by discriminate. reflexivity.
  - rewrite midpoint_fewer by (simpl; auto).
    cbn [bind]. unfold nd.
    rewrite cut_normalize_all_inliers by discriminate. reflexivity.
  - cbn [firstn].
    rewrite midpoint_two by (apply Hin; simpl; auto).
    reflexivity.
Qed.

End FGD_theory.

(** ** DECOMP *)

Section DECOMP_theory.

Import DECOMP.

Variable cdf : list Q -> Q -> Q.
Variable fit_transform : method_t -> Z -> list Q -> list Q.

Local Abbreviation eval_body := (DECOMP.eval_body cdf fit_transform).
Local Abbreviation eval := (DECOMP.eval cdf fit_transform).

Lemma decomp_body_ok (self : t) (decision : list Q) :
  decision <> [] ->
  let nd := Utility.normalize decision in
  let grid := np_linspace 0 1 (length nd * 3) in
  let val := Utility.normalize (map (cdf nd) grid) in
  let dec := fit_transform (method self) estimator_random_state val in
  dec <> [] ->
  exists m,
    np_max dec = Ok m /\
    eval_body self decision = Ok (reflect m, Utility.cut nd (reflect m)).
Proof.
  intros Hne nd grid val dec Hdec.
  destruct (np_max_spec Hdec) as (m & Hm & _).
  exists m. split; [exact Hm|].
  unfold DECOMP.eval_body.
  destruct decision as [|d ds]; [congruence|].
  cbn [check_array bind Utility.gen_cdf].
  fold nd. fold grid. fold val. fold dec.
  rewrite Hm. reflexivity.
Qed.

(** C7.  [DECOMP.eval] takes the maximum of the one-component decomposition
    (of the configured kind) of the normalized distribution values over the
    grid of [3n] points, replaces it by 1 minus itself when it is strictly
    above 0.5, stores that in [thresh_] and labels by [cut] at it. *)
Theorem eval_reflected_maximum (self : t) (decision : list Q) :
  decision <> [] ->
  let nd := Utility.normalize decision in
  let grid := np_linspace 0 1 (length nd * 3) in
  let val := Utility.normalize (map (cdf nd) grid) in
  let dec := fit_transform (method self) estimator_random_state val in
  dec <> [] ->
  exists m,
    In m dec /\ (forall x, In x dec -> (x <= m)%Q) /\
    let limit := if Qgtb m (1 # 2) then (1 - m)%Q else m in
    eval self decision
    = ({| method := method self; thresh_ := Some limit |},
       Ok (Utility.cut nd limit)).
Proof.
  intros Hne nd grid val dec Hdec.
  destruct (np_max_spec Hdec) as (m & Hm & Hin & Hmax).
  exists m. split; [exact Hin|]. split; [exact Hmax|].
  unfold DECOMP.eval, DECOMP.eval_body.
  destruct decision as [|d ds]; [congruence|].
  cbn [check_array bind Utility.gen_cdf].
  fold nd. fold grid. fold val. fold dec.
  rewrite Hm. reflexivity.
Qed.

(** C10.  After an [eval] that returns, [thresh_] is at most 0.5: a raw
    maximum up to 0.5 is kept, one strictly above 0.5 is replaced by 1 minus
    itself, which is strictly below 0.5. *)
Theorem thresh_at_most_half (self self' : t) (decision : list Q) (labels : list Z) :
  eval self decision = (self', Ok labels) ->
  let nd := Utility.normalize decision in
  let grid := np_linspace 0 1 (length nd * 3) in
  let val := Utility.normalize (map (cdf nd) grid) in
  let dec := fit_transform (method self) estimator_random_state val in
  exists m limit,
    np_max dec = Ok m /\ thresh_ self' = Some limit /\
    (limit <= 1 # 2)%Q /\
    ((m <= 1 # 2)%Q -> limit = m) /\
    ((1 # 2 < m)%Q -> limit = (1 - m)%Q /\ (limit < 1 # 2)%Q).
Proof.
  intros Heval nd grid val dec.
  unfold DECOMP.eval, DECOMP.eval_body in Heval.
  destruct decision as [|d ds]; [discriminate|].
  cbn [check_array bind Utility.gen_cdf] in Heval.
  fold nd in Heval. fold grid in Heval. fold val in Heval. fold dec in Heval.
  destruct (np_max dec) as [m|e]; [|discriminate].
  cbn [bind] in Heval. injection Heval as <- _.
  exists m, (reflect m). split; [reflexivity|]. split; [reflexivity|].
  unfold reflect.
  destruct (Qgtb m (1 # 2)) eqn:E.
  - apply Qgtb_gt in E. repeat split; try lra.
  - apply Qltb_nlt in E. repeat split; try lra.
Qed.

End DECOMP_theory.

(** ** MCST *)

Section MCST_theory.

Import MCST.

Variable shapiro_pvalue : list Q -> Q.
Variable rng : Type.
Variable rvs_seeded : Z -> nat -> list Q.
Variable rvs_global : rng -> nat -> list Q * rng.

Local Abbreviation uniform_rvs := (MCST.uniform_rvs rvs_seeded rvs_global).
Local Abbreviation search := (MCST.search shapiro_pvalue).
Local Abbreviation eval_body := (MCST.eval_body shapiro_pvalue rvs_seeded rvs_global).
Local Abbreviation eval := (MCST.eval shapiro_pvalue rvs_seeded rvs_global).

(** The recorded samples are determined by the samples and the starting
    p-value. *)
Lemma greedy_functional (p : Q -> Q) (best : Q) (samples r1 r2 : list Q) :
  greedy p best samples r1 -> greedy p best samples r2 -> r1 = r2.
Proof.
  intros H1. revert r2.
  induction H1 as [best|best r rest recorded Hlt _ IH|best r rest recorded Hn _ IH];
    intros r2 H2; inversion H2; subst; try contradiction.
  - reflexivity.
  - f_equal. now apply IH.
  - now apply IH.
Qed.


(** [eval] never raises on a non-empty input. *)
Lemma mcst_body_ok (self : t) (g : rng) (decision : list Q) :
  decision <> [] -> exists limit,
    snd (eval_body self g decision)
    = Ok (limit, Utility.cut (Utility.normalize decision) limit).
Proof.
  intros Hne. unfold MCST.eval_body.
  destruct decision as [|d ds]; [congruence|].
  cbn [check_array].
  destruct (uniform_rvs _ _ _) as [rnd g0].
  destruct (search _ _ _ _) as [p povr].
  cbn [snd]. eauto.
Qed.


End MCST_theory.

(** ** HIST *)

Section HIST_theory.

Import HIST.

Variable np_log : Q -> Q.
Variable np_sqrt : Q -> Q.
Variable uniform_filter1d : list Q -> nat -> list Q.

Local Abbreviation threshold_with := (HIST.threshold_with np_log np_sqrt uniform_filter1d).
Local Abbreviation threshold_and_labels :=
  (HIST.threshold_and_labels np_log np_sqrt uniform_filter1d).
Local Abbreviation eval := (HIST.eval np_log np_sqrt uniform_filter1d).

Lemma truncation_checked_upto_10000 :
  forallb truncation_checked (seq 0 (100 * 100 + 1)) = true.
Proof. vm_compute. reflexivity. Qed.

Lemma default_nbins_bounds (n : nat) :
  (n <= 100 * 100)%nat ->
  exists k,
    default_nbins n = Ok k /\
    let f := (7 * Z.of_nat n / 10)%Z in
    (f - 1 <= k <= f)%Z /\
    ((Z.of_nat n mod 10 <> 0)%Z -> k = f) /\
    ((n < 90)%nat -> k = f).
Proof.
  intros Hn.
  assert (Hc : truncation_checked n = true).
  { apply (proj1 (forallb_forall _ _) truncation_checked_upto_10000).
    apply in_seq. lia. }
  unfold truncation_checked in Hc.
  destruct (default_nbins n) as [k|e]; [|discriminate].
  exists k. split; [reflexivity|]. cbv zeta in *.
  rewrite !andb_true_iff, !orb_true_iff in Hc.
  destruct Hc as [[[H1 H2] H3] H4].
  rewrite Z.leb_le in H1, H2.
  rewrite !Z.eqb_eq in H3. rewrite Z.leb_le, Z.eqb_eq in H4.
  repeat split; lia.
Qed.

(** The labels are those of the strict comparison, score by score. *)
Lemma label_above_map (decision : list Q) (threshold : Q) :
  label_above decision threshold
  = map (fun x => if Qgtb x threshold then 1%Z else 0%Z) decision.
Proof.
  apply nth_error_ext. intros j.
  unfold HIST.label_above.
  set (P := fun x => Qgtb x threshold).
  assert (Hin : forall i, In i (np_where P decision) <->
                 exists x, nth_error decision i = Some x /\ P x = true).
  { intros i. unfold np_where. rewrite filter_In, in_seq.
    destruct (nth_error decision i) as [x|] eqn:E.
    - split.
      + intros [_ Hp]. eauto.
      + intros (y & [= <-] & Hp). split; [|exact Hp].
        split; [lia|]. apply nth_error_Some. congruence.
    - split; [intros [_ ?]; discriminate | intros (y & [=] & _)]. }
  rewrite nth_error_assign_all.
  - rewrite nth_error_map.
    destruct (existsb (Nat.eqb j) (np_where P decision)) eqn:E.
    + apply existsb_exists in E. destruct E as (k & Hk & Hjk).
      apply Nat.eqb_eq in Hjk. subst k.
      apply Hin in Hk. destruct Hk as (x & Hx & Hp).
      rewrite Hx. simpl. fold (P x). now rewrite Hp.
    + destruct (nth_error decision j) as [x|] eqn:Hx; simpl.
      * fold (P x). destruct (P x) eqn:Hp.
        -- assert (Hj : In j (np_where P decision)) by (apply Hin; eauto).
           assert (Hex : existsb (Nat.eqb j) (np_where P decision) = true).
           { apply existsb_exists. exists j. split; [exact Hj|apply Nat.eqb_refl]. }
           congruence.
        -- apply nth_error_repeat. apply nth_error_Some. congruence.
      * apply nth_error_None. rewrite repeat_length.
        apply nth_error_None. exact Hx.
  - intros i Hi. rewrite repeat_length.
    apply Hin in Hi. destruct Hi as (x & Hx & _).
    apply nth_error_Some. congruence.
Qed.

Lemma eval_unfold (fuel : nat) (self : t) (decision : list Q) :
  decision <> [] ->
  eval fuel self decision
  = let nd := Utility.normalize decision in
    match match nbins self with
          | None => default_nbins (length decision)
          | Some k => Ok k
          end with
    | Raise e => (self, Raise e)
    | Ok k =>
        match threshold_and_labels fuel (method self) k nd with
        | Raise e =>
            ({| nbins := Some k; method := method self; thresh_ := thresh_ self |},
             Raise e)
        | Ok (threshold, scores) =>
            ({| nbins := Some k; method := method self; thresh_ := Some threshold |},
             Ok scores)
        end
    end.
Proof.
  intros Hne. unfold HIST.eval.
  destruct decision as [|d ds]; [congruence|].
  cbn [check_array]. rewrite normalize_length. reflexivity.
Qed.

Lemma eval_method (fuel : nat) (self : t) (decision : list Q) :
  method (fst (eval fuel self decision)) = method self.
Proof.
  destruct decision as [|d ds]; [reflexivity|].
  rewrite eval_unfold by discriminate. cbv zeta.
  destruct (match nbins self with None => _ | Some k => _ end) as [k|e];
    [|reflexivity].
  destruct (threshold_and_labels _ _ _ _) as [[? ?]|?]; reflexivity.
Qed.

Lemma eval_nbins_resolved (fuel : nat) (self : t) (decision : list Q) (k : Z) :
  decision <> [] ->
  match nbins self with
  | None => default_nbins (length decision)
  | Some k => Ok k
  end = Ok k ->
  nbins (fst (eval fuel self decision)) = Some k /\
  snd (eval fuel self decision)
  = match threshold_and_labels fuel (method self) k (Utility.normalize decision) with
    | Ok (_, scores) => Ok scores
    | Raise e => Raise e
    end.
Proof.
  intros Hne Hk. rewrite eval_unfold by exact Hne. cbv zeta. rewrite Hk.
  destruct (threshold_and_labels _ _ _ _) as [[? ?]|?]; split; reflexivity.
Qed.

Lemma eval_nbins_kept (fuel : nat) (self : t) (decision : list Q) (k : Z) :
  nbins self = Some k -> nbins (fst (eval fuel self decision)) = Some k.
Proof.
  intros Hk. destruct decision as [|d ds]; [exact Hk|].
  apply eval_nbins_resolved; [discriminate|]. now rewrite Hk.
Qed.

(** C1, at the inputs where it fails.  An instance with the default
    arguments, given the two scores 0 and 1, stores one bin and raises
    [ValueError]: Otsu's [np.argmax] gets an empty array.  Given a single
    score it stores no bin at all and [np.histogram] raises [ValueError]. *)
Theorem default_raises_on_short_inputs (fuel : nat) :
  eval fuel default [0; 1]%Q
  = ({| nbins := Some 1%Z; method := otsu; thresh_ := None |}, Raise ValueError)
  /\ eval fuel default [5]%Q
     = ({| nbins := Some 0%Z; method := otsu; thresh_ := None |}, Raise ValueError).
Proof. split; vm_compute; reflexivity. Qed.

(** C9.  An instance built with [nbins=None] takes its bin count from the
    length of the first input and keeps it: the second call, on any other
    input, builds its histogram with the first call's count.  [eval] leaves
    [method] as it is, and a bin count that is set stays. *)
Theorem nbins_retained_across_calls (fuel : nat) (m : method_t) (th : option Q)
  (d1 d2 : list Q) (k : Z) :
  d1 <> [] -> d2 <> [] ->
  default_nbins (length d1) = Ok k ->
  let self := {| nbins := None; method := m; thresh_ := th |} in
  let self1 := fst (eval fuel self d1) in
  let self2 := fst (eval fuel self1 d2) in
  nbins self1 = Some k /\ method self1 = m /\
  nbins self2 = Some k /\ method self2 = m /\
  snd (eval fuel self1 d2)
  = match threshold_and_labels fuel m k (Utility.normalize d2) with
    | Ok (_, scores) => Ok scores
    | Raise e => Raise e
    end /\
  (forall (s : t) (d : list Q),
      method (fst (eval fuel s d)) = method s /\
      forall k', nbins s = Some k' -> nbins (fst (eval fuel s d)) = Some k').
Proof.
  intros H1 H2 Hk self self1 self2.
  assert (Hn1 : nbins self1 = Some k).
  { unfold self1. now apply eval_nbins_resolved. }
  assert (Hm1 : method self1 = m) by apply eval_method.
  repeat split.
  - exact Hn1.
  - exact Hm1.
  - unfold self2. apply eval_nbins_kept, Hn1.
  - unfold self2. rewrite eval_method. exact Hm1.
  - rewrite <- Hm1. apply eval_nbins_resolved; [exact H2|]. now rewrite Hn1.
  - apply eval_method.
  - apply eval_nbins_kept.
Qed.

(** C3, as the code has it.  With [nbins=None] the first [eval] stores and
    builds its histogram with [int(len(decision)*0.7)]: the binary64 product
    truncated toward zero.  For an input of up to 10000 scores this is
    [floor(0.7 n)] or one less, and [floor(0.7 n)] itself when [n] is not a
    multiple of ten or is below 90. *)
Theorem default_nbins_truncated (fuel : nat) (m : method_t) (th : option Q)
  (decision : list Q) :
  decision <> [] ->
  let self := {| nbins := None; method := m; thresh_ := th |} in
  let n := Z.of_nat (length decision) in
  (forall k,
      default_nbins (length decision) = Ok k ->
      nbins (fst (eval fuel self decision)) = Some k /\
      snd (eval fuel self decision)
      = match threshold_and_labels fuel m k (Utility.normalize decision) with
        | Ok (_, scores) => Ok scores
        | Raise e => Raise e
        end) /\
  ((n <= 10000)%Z ->
     exists k,
       default_nbins (length decision) = Ok k /\
       (7 * n / 10 - 1 <= k <= 7 * n / 10)%Z /\
       ((n mod 10 <> 0)%Z -> k = (7 * n / 10)%Z) /\
       ((n < 90)%Z -> k = (7 * n / 10)%Z)).
Proof.
  intros Hne self n. split.
  - intros k Hk. exact (@eval_nbins_resolved fuel self decision k Hne Hk).
  - intros Hle.
    destruct (@default_nbins_bounds (length decision)) as (k & Hk & Hb & Hmod & Hlt);
      [lia|].
    fold n in Hb, Hmod, Hlt.
    exists k. split; [exact Hk|]. split; [exact Hb|]. split; [exact Hmod|].
    intros H. apply Hlt. lia.
Qed.

End HIST_theory.

(** ** The five thresholders together *)

Section Thresholders_theory.

Import Thresholders.

Variable kde : list Q -> Q -> Q.
Variable auc : list Q -> list Q -> Q.
Variable cdf : list Q -> Q -> Q.
Variable fit_transform : DECOMP.method_t -> Z -> list Q -> list Q.
Variable shapiro_pvalue : list Q -> Q.
Variable rng : Type.
Variable rvs_seeded : Z -> nat -> list Q.
Variable rvs_global : rng -> nat -> list Q * rng.
Variable np_log : Q -> Q.
Variable np_sqrt : Q -> Q.
Variable uniform_filter1d : list Q -> nat -> list Q.
Variable fuel : nat.

Local Abbreviation strategy := (Thresholders.strategy rng).
Local Abbreviation eval :=
  (Thresholders.eval kde auc cdf fit_transform shapiro_pvalue rvs_seeded
     rvs_global np_log np_sqrt uniform_filter1d fuel).

Lemma aucp_body_labels (decision : list Q) (limit : Q) (labels : list Z) :
  AUCP.eval_body kde auc decision = Ok (limit, labels) ->
  labels = Utility.cut (Utility.normalize decision) limit.
Proof.
  unfold AUCP.eval_body.
  destruct decision as [|d ds]; [discriminate|].
  cbn [check_array bind Utility.gen_kde].
  destruct (AUCP.metrics_auc _ _ _) as [tot_area|e]; cbn [bind]; [|discriminate].
  destruct (AUCP.scan _ _ _ _ _ _) as [l|e]; [|discriminate].
  cbn [bind]. now intros [= <- <-].
Qed.

Lemma fgd_body_labels (decision : list Q) (limit : Q) (labels : list Z) :
  FGD.eval_body kde decision = Ok (limit, labels) ->
  labels = Utility.cut (Utility.normalize decision) limit.
Proof.
  unfold FGD.eval_body.
  destruct decision as [|d ds]; [discriminate|].
  cbn [check_array bind Utility.gen_kde].
  repeat match goal with
         | |- bind ?c _ = _ -> _ => destruct c; [cbn [bind]|discriminate]
         end.
  now intros [= <- <-].
Qed.

Lemma decomp_body_labels (self : DECOMP.t) (decision : list Q) (limit : Q)
  (labels : list Z) :
  DECOMP.eval_body cdf fit_transform self decision = Ok (limit, labels) ->
  labels = Utility.cut (Utility.normalize decision) limit.
Proof.
  unfold DECOMP.eval_body.
  destruct decision as [|d ds]; [discriminate|].
  cbn [check_array bind Utility.gen_cdf].
  destruct (np_max _) as [m|e]; [|discriminate].
  cbn [bind]. now intros [= <- <-].
Qed.

Lemma mcst_body_labels (self : MCST.t) (g g' : rng) (decision : list Q)
  (limit : Q) (labels : list Z) :
  MCST.eval_body shapiro_pvalue rvs_seeded rvs_global self g decision
  = (g', Ok (limit, labels)) ->
  labels = Utility.cut (Utility.normalize decision) limit.
Proof.
  unfold MCST.eval_body.
  destruct decision as [|d ds]; [discriminate|].
  cbn [check_array].
  destruct (MCST.uniform_rvs _ _ _ _ _) as [rnd g0].
  destruct (MCST.search _ _ _ _ _) as [p povr].
  now intros [= _ <- <-].
Qed.

Lemma hist_labels (self self' : HIST.t) (decision : list Q) (labels : list Z) :
  HIST.eval np_log np_sqrt uniform_filter1d fuel self decision = (self', Ok labels) ->
  exists threshold,
    HIST.thresh_ self' = Some threshold /\
    labels = HIST.label_above (Utility.normalize decision) threshold.
Proof.
  destruct decision as [|d ds]; [discriminate|].
  rewrite eval_unfold by discriminate. cbv zeta.
  destruct (match HIST.nbins self with None => _ | Some k => _ end) as [k|e];
    [|discriminate].
  unfold HIST.threshold_and_labels.
  destruct (HIST.histogram _ _) as [[bin_centers counts]|e]; [|discriminate].
  cbn [bind].
  destruct (HIST.threshold_with _ _ _ _ _ _ _ _) as [threshold|e]; [|discriminate].
  cbn [bind]. intros [= <- <-]. exists threshold. split; reflexivity.
Qed.

(** A returning [eval] sets [thresh_] and labels the normalized scores by
    the strict comparison with it. *)
Lemma eval_ok_labels (s s' : strategy) (decision : list Q) (labels : list Z) :
  eval s decision = (s', Ok labels) ->
  exists t,
    thresh_ s' = Some t /\
    labels = map (fun x => if Qgtb x t then 1%Z else 0%Z) (Utility.normalize decision).
Proof.
  destruct s as [self|self|self|self|self g]; unfold Thresholders.eval.
  - unfold AUCP.eval.
    destruct (AUCP.eval_body kde auc decision) as [[limit l]|e] eqn:E;
      [|discriminate].
    intros [= <- <-]. exists limit. split; [reflexivity|].
    eapply aucp_body_labels; exact E.
  - unfold DECOMP.eval.
    destruct (DECOMP.eval_body cdf fit_transform self decision) as [[limit l]|e] eqn:E;
      [|discriminate].
    intros [= <- <-]. exists limit. split; [reflexivity|].
    eapply decomp_body_labels; exact E.
  - unfold FGD.eval.
    destruct (FGD.eval_body kde decision) as [[limit l]|e] eqn:E;
      [|discriminate].
    intros [= <- <-]. exists limit. split; [reflexivity|].
    eapply fgd_body_labels; exact E.
  - destruct (HIST.eval np_log np_sqrt uniform_filter1d fuel self decision)
      as [self1 r] eqn:E.
    intros [= <- ->].
    destruct (hist_labels _ _ E) as (t & Ht & Hl).
    exists t. split; [exact Ht|].
    rewrite Hl. apply label_above_map.
  - unfold MCST.eval.
    destruct (MCST.eval_body shapiro_pvalue rvs_seeded rvs_global self g decision)
      as [g' [[limit l]|e]] eqn:E; [|discriminate].
    intros [= <- <-]. exists limit. split; [reflexivity|].
    eapply mcst_body_labels; exact E.
Qed.

(** [DECOMP], [FGD] and [MCST] return on every non-empty input (for
    [DECOMP], when the decomposition gives a non-empty matrix), with one
    label per score, each 0 or 1, and [thresh_] set. *)
Lemma eval_returns_outside_hist (s : strategy) (decision : list Q) :
  decision <> [] ->
  match s with
  | Hist _ | Aucp _ => True
  | _ =>
      (forall self, s = Decomp self ->
         fit_transform (DECOMP.method self) DECOMP.estimator_random_state
           (Utility.normalize
              (map (cdf (Utility.normalize decision))
                 (np_linspace 0 1 (length (Utility.normalize decision) * 3))))
         <> []) ->
      exists s' labels t,
        eval s decision = (s', Ok labels) /\
        thresh_ s' = Some t /\
        length labels = length decision /\
        forall b, In b labels -> b = 0%Z \/ b = 1%Z
  end.
Proof.
  intros Hne.
  assert (Hcut : forall t,
             length (Utility.cut (Utility.normalize decision) t) = length decision
             /\ forall b, In b (Utility.cut (Utility.normalize decision) t) ->
                   b = 0%Z \/ b = 1%Z).
  { intros t. split; [now rewrite cut_length, normalize_length|].
    intros b. apply cut_binary. }
  destruct s as [self|self|self|self|self g]; [exact I| | |exact I|]; intros Hdec.
  - destruct (@decomp_body_ok cdf fit_transform self decision Hne
                (Hdec self eq_refl)) as (m & _ & Hb).
    exists (Decomp {| DECOMP.method := DECOMP.method self;
                      DECOMP.thresh_ := Some (DECOMP.reflect m) |}),
      (Utility.cut (Utility.normalize decision) (DECOMP.reflect m)),
      (DECOMP.reflect m).
    unfold Thresholders.eval, DECOMP.eval. rewrite Hb.
    destruct (Hcut (DECOMP.reflect m)). repeat split; auto.
  - destruct (fgd_body_ok kde Hne) as [limit Hb].
    exists (Fgd {| FGD.thresh_ := Some limit |}),
      (Utility.cut (Utility.normalize decision) limit), limit.
    unfold Thresholders.eval, FGD.eval. rewrite Hb.
    destruct (Hcut limit). repeat split; auto.
  - destruct (@mcst_body_ok shapiro_pvalue rng rvs_seeded rvs_global
                self g decision Hne) as (limit & Hb).
    unfold Thresholders.eval, MCST.eval.
    destruct (MCST.eval_body shapiro_pvalue rvs_seeded rvs_global self g decision)
      as [g' r].
    cbn [snd] in Hb. subst r.
    exists (Mcst {| MCST.random_state := MCST.random_state self;
                    MCST.thresh_ := Some limit |} g'),
      (Utility.cut (Utility.normalize decision) limit), limit.
    destruct (Hcut limit). repeat split; auto.
Qed.

(** C2.  When [eval] returns, the label at a position is 1 exactly when the
    normalized score at that position is strictly above the retained
    [thresh_]; this holds for all five classes, [HIST] included, whose labels
    come from its own comparison and not from [cut]. *)
Theorem labels_follow_threshold (s s' : strategy) (decision : list Q)
  (labels : list Z) :
  eval s decision = (s', Ok labels) ->
  exists t,
    thresh_ s' = Some t /\
    length labels = length decision /\
    forall i,
      nth_error labels i = Some 1%Z <->
      exists x, nth_error (Utility.normalize decision) i = Some x /\ (t < x)%Q.
Proof.
  intros H. destruct (eval_ok_labels _ _ H) as (t & Ht & ->).
  exists t. split; [exact Ht|]. split.
  - now rewrite length_map, normalize_length.
  - intros i. apply (cut_spec (Utility.normalize decision) t i).
Qed.

Lemma aucp_eval_again (self : AUCP.t) (decision : list Q) :
  let self1 := fst (AUCP.eval kde auc self decision) in
  snd (AUCP.eval kde auc self1 decision) = snd (AUCP.eval kde auc self decision) /\
  AUCP.thresh_ (fst (AUCP.eval kde auc self1 decision)) = AUCP.thresh_ self1.
Proof.
  unfold AUCP.eval.
  destruct (AUCP.eval_body kde auc decision) as [[limit labels]|e];
    split; reflexivity.
Qed.

Lemma fgd_eval_again (self : FGD.t) (decision : list Q) :
  let self1 := fst (FGD.eval kde self decision) in
  snd (FGD.eval kde self1 decision) = snd (FGD.eval kde self decision) /\
  FGD.thresh_ (fst (FGD.eval kde self1 decision)) = FGD.thresh_ self1.
Proof.
  unfold FGD.eval.
  destruct (FGD.eval_body kde decision) as [[limit labels]|e];
    split; reflexivity.
Qed.

Lemma decomp_body_method (self self' : DECOMP.t) (decision : list Q) :
  DECOMP.method self' = DECOMP.method self ->
  DECOMP.eval_body cdf fit_transform self' decision
  = DECOMP.eval_body cdf fit_transform self decision.
Proof.
  intros H. unfold DECOMP.eval_body. now rewrite H.
Qed.

Lemma decomp_eval_again (self : DECOMP.t) (decision : list Q) :
  let self1 := fst (DECOMP.eval cdf fit_transform self decision) in
  snd (DECOMP.eval cdf fit_transform self1 decision)
  = snd (DECOMP.eval cdf fit_transform self decision) /\
  DECOMP.thresh_ (fst (DECOMP.eval cdf fit_transform self1 decision))
  = DECOMP.thresh_ self1.
Proof.
  cbv zeta.
  destruct (DECOMP.eval_body cdf fit_transform self decision)
    as [[limit labels]|e] eqn:E.
  - set (self1 := {| DECOMP.method := DECOMP.method self;
                     DECOMP.thresh_ := Some limit |}).
    assert (E1 : DECOMP.eval cdf fit_transform self decision = (self1, Ok labels)).
    { unfold DECOMP.eval. now rewrite E. }
    assert (E2 : DECOMP.eval cdf fit_transform self1 decision = (self1, Ok labels)).
    { unfold DECOMP.eval.
      rewrite (@decomp_body_method self self1 decision eq_refl), E.
      reflexivity. }
    rewrite E1. cbn [fst snd]. rewrite E2. split; reflexivity.
  - assert (E1 : DECOMP.eval cdf fit_transform self decision = (self, Raise e)).
    { unfold DECOMP.eval. now rewrite E. }
    rewrite E1. cbn [fst snd]. rewrite E1. split; reflexivity.
Qed.

(** With an integer seed the outcome of [MCST.eval] does not depend on the
    global generator, which it leaves as it was. *)
Lemma mcst_seeded_body (self : MCST.t) (seed : Z) (g g' : rng) (decision : list Q) :
  MCST.random_state self = Some seed ->
  MCST.eval_body shapiro_pvalue rvs_seeded rvs_global self g decision
  = (g, snd (MCST.eval_body shapiro_pvalue rvs_seeded rvs_global self g' decision)).
Proof.
  intros Hs. unfold MCST.eval_body, MCST.uniform_rvs. rewrite Hs.
  destruct (check_array decision) as [d|e]; [|reflexivity].
  destruct (MCST.search _ _ _ _ _) as [p povr]. reflexivity.
Qed.

Lemma mcst_body_state (self self' : MCST.t) (g : rng) (decision : list Q) :
  MCST.random_state self' = MCST.random_state self ->
  MCST.eval_body shapiro_pvalue rvs_seeded rvs_global self' g decision
  = MCST.eval_body shapiro_pvalue rvs_seeded rvs_global self g decision.
Proof.
  intros H. unfold MCST.eval_body. now rewrite H.
Qed.

Lemma mcst_eval_again (self : MCST.t) (seed : Z) (g g' : rng) (decision : list Q) :
  MCST.random_state self = Some seed ->
  let e := MCST.eval shapiro_pvalue rvs_seeded rvs_global in
  let self1 := fst (fst (e self g decision)) in
  snd (e self1 g' decision) = snd (e self g decision) /\
  MCST.thresh_ (fst (fst (e self1 g' decision))) = MCST.thresh_ self1 /\
  snd (fst (e self g decision)) = g.
Proof.
  intros Hs. cbv zeta.
  pose proof (mcst_seeded_body self g g decision Hs) as Eg.
  pose proof (mcst_seeded_body self g' g decision Hs) as Eg'.
  destruct (snd (MCST.eval_body shapiro_pvalue rvs_seeded rvs_global self g decision))
    as [[limit labels]|e].
  - set (self1 := {| MCST.random_state := MCST.random_state self;
                     MCST.thresh_ := Some limit |}).
    assert (E1 : MCST.eval shapiro_pvalue rvs_seeded rvs_global self g decision
                 = (self1, g, Ok labels)).
    { unfold MCST.eval. now rewrite Eg. }
    assert (E2 : MCST.eval shapiro_pvalue rvs_seeded rvs_global self1 g' decision
                 = (self1, g', Ok labels)).
    { unfold MCST.eval.
      rewrite (@mcst_body_state self self1 g' decision eq_refl), Eg'.
      reflexivity. }
    rewrite E1. cbn [fst snd]. rewrite E2. repeat split; reflexivity.
  - assert (E1 : MCST.eval shapiro_pvalue rvs_seeded rvs_global self g decision
                 = (self, g, Raise e)).
    { unfold MCST.eval. now rewrite Eg. }
    assert (E2 : MCST.eval shapiro_pvalue rvs_seeded rvs_global self g' decision
                 = (self, g', Raise e)).
    { unfold MCST.eval. now rewrite Eg'. }
    rewrite E1. cbn [fst snd]. rewrite E2. repeat split; reflexivity.
Qed.

Lemma hist_eval_again (self : HIST.t) (decision : list Q) :
  let e := HIST.eval np_log np_sqrt uniform_filter1d fuel in
  let self1 := fst (e self decision) in
  snd (e self1 decision) = snd (e self decision) /\
  HIST.thresh_ (fst (e self1 decision)) = HIST.thresh_ self1.
Proof.
  cbv zeta.
  destruct decision as [|d ds]; [split; reflexivity|].
  rewrite (@eval_unfold np_log np_sqrt uniform_filter1d fuel self (d :: ds))
    by discriminate.
  cbv zeta.
  destruct (match HIST.nbins self with None => _ | Some k => _ end) as [k|e] eqn:Hk.
  - destruct (HIST.threshold_and_labels np_log np_sqrt uniform_filter1d fuel
                (HIST.method self) k (Utility.normalize (d :: ds)))
      as [[threshold scores]|e] eqn:Ht;
      cbn [fst snd];
      rewrite eval_unfold by discriminate;
      cbv zeta; cbn [HIST.nbins HIST.method HIST.thresh_];
      rewrite Ht; split; reflexivity.
  - cbn [fst snd].
    rewrite eval_unfold by discriminate. cbv zeta. rewrite Hk.
    split; reflexivity.
Qed.

(** C8, amended.  A second [eval] on the same instance with the same input
    gives the same labels (or the same exception) and the same [thresh_] as
    the first: for AUCP, DECOMP, FGD and HIST always, for MCST when
    [random_state] is an integer seed; and with a seed the outcome of
    [MCST.eval] is the same from any state of the global generator.  With
    [random_state=None], which the class documents, the samples come from
    the global generator, which the first call has advanced. *)
Theorem eval_repeatable (s : strategy) (decision : list Q) :
  seeded s ->
  let s1 := fst (eval s decision) in
  let s2 := fst (eval s1 decision) in
  (snd (eval s1 decision) = snd (eval s decision) /\ thresh_ s2 = thresh_ s1) /\
  (forall self g g',
      s = Mcst self g ->
      snd (eval (Mcst self g') decision) = snd (eval s decision) /\
      thresh_ (fst (eval (Mcst self g') decision)) = thresh_ s1).
Proof.
  intros Hseed. cbv zeta. split.
  - destruct s as [self|self|self|self|self g]; unfold Thresholders.eval.
    + destruct (aucp_eval_again self decision) as [H1 H2].
      destruct (AUCP.eval kde auc self decision) as [self1 r1] eqn:E1.
      cbn [fst snd] in *.
      destruct (AUCP.eval kde auc self1 decision) as [self2 r2].
      cbn [fst snd thresh_] in *. now split.
    + destruct (decomp_eval_again self decision) as [H1 H2].
      destruct (DECOMP.eval cdf fit_transform self decision) as [self1 r1] eqn:E1.
      cbn [fst snd] in *.
      destruct (DECOMP.eval cdf fit_transform self1 decision) as [self2 r2].
      cbn [fst snd thresh_] in *. now split.
    + destruct (fgd_eval_again self decision) as [H1 H2].
      destruct (FGD.eval kde self decision) as [self1 r1] eqn:E1.
      cbn [fst snd] in *.
      destruct (FGD.eval kde self1 decision) as [self2 r2].
      cbn [fst snd thresh_] in *. now split.
    + destruct (hist_eval_again self decision) as [H1 H2].
      destruct (HIST.eval np_log np_sqrt uniform_filter1d fuel self decision)
        as [self1 r1] eqn:E1.
      cbn [fst snd] in *.
      destruct (HIST.eval np_log np_sqrt uniform_filter1d fuel self1 decision)
        as [self2 r2].
      cbn [fst snd thresh_] in *. now split.
    + simpl in Hseed.
      destruct (MCST.random_state self) as [seed|] eqn:Hs; [|congruence].
      destruct (mcst_eval_again self g g decision Hs) as (H1 & H2 & H3).
      destruct (MCST.eval shapiro_pvalue rvs_seeded rvs_global self g decision)
        as [[self1 g1] r1] eqn:E1.
      cbn [fst snd] in *. subst g1.
      destruct (MCST.eval shapiro_pvalue rvs_seeded rvs_global self1 g decision)
        as [[self2 g2] r2].
      cbn [fst snd thresh_] in *. now split.
  - intros self g g' ->. simpl in Hseed.
    destruct (MCST.random_state self) as [seed|] eqn:Hs; [|congruence].
    unfold Thresholders.eval, MCST.eval.
    rewrite (mcst_seeded_body self g' g decision Hs).
    rewrite (mcst_seeded_body self g g decision Hs).
    destruct (snd (MCST.eval_body _ _ _ self g decision)) as [[limit labels]|e];
      split; reflexivity.
Qed.

End Thresholders_theory.

(** ** Runs on the samples *)

Lemma labels_follow_threshold_witness :
  let s := Thresholders.Hist (HIST.init HIST.otsu (Some 4%Z)) in
  let labels := [0; 0; 0; 1; 1; 0; 1]%Z in
  exists t,
    Thresholders.thresh_ (fst (Samples.eval s Samples.seven_scores)) = Some t /\
    length labels = length Samples.seven_scores /\
    forall i,
      nth_error labels i = Some 1%Z <->
      exists x,
        nth_error (Utility.normalize Samples.seven_scores) i = Some x /\ (t < x)%Q.
Proof.
  cbv zeta.
  apply (@labels_follow_threshold
           Samples.tent_kde Samples.trapz Samples.ecdf Samples.centred
           Samples.closeness Z Samples.lcg_seeded Samples.lcg_draw
           Samples.log_standin Samples.sqrt_standin Samples.box_filter 10%nat
           (Thresholders.Hist (HIST.init HIST.otsu (Some 4%Z)))).
  vm_compute. reflexivity.
Defined.

Lemma eval_first_crossing_witness :
  AUCP.eval Samples.tent_kde Samples.trapz AUCP.init Samples.four_scores
  = ({| AUCP.thresh_ := Some (2 # 7)%Q |},
     Ok (Utility.cut (Utility.normalize Samples.four_scores) (2 # 7)%Q))
  /\ AUCP.eval Samples.tent_kde Samples.trapz AUCP.init [5]%Q
     = (AUCP.init, Raise ValueError).
Proof.
  split.
  - apply (proj1 (@eval_first_crossing Samples.tent_kde Samples.trapz
                    AUCP.init Samples.four_scores ltac:(discriminate))
             2%nat (2 # 7)%Q).
    + vm_compute. lia.
    + vm_compute. reflexivity.
    + vm_compute. reflexivity.
    + intros j Hj.
      destruct j as [|[|j]]; [| |exfalso; lia]; vm_compute; discriminate.
  - apply (proj1 (proj2 (@eval_first_crossing Samples.tent_kde Samples.trapz
                           AUCP.init [5]%Q ltac:(discriminate)))).
    intros i Hi.
    rewrite np_linspace_length in Hi. simpl in Hi.
    destruct i as [|i]; [|exfalso; lia].
    vm_compute. discriminate.
Defined.

Lemma eval_inflection_midpoint_witness :
  FGD.eval Samples.tent_kde FGD.init Samples.six_scores
  = ({| FGD.thresh_ := Some (272 # 578)%Q |}, Ok [0; 0; 0; 1; 1; 1]%Z)
  /\ FGD.eval Samples.flat_kde FGD.init Samples.two_scores
     = ({| FGD.thresh_ := Some (11 # 10)%Q |}, Ok [0; 0]%Z).
Proof.
  split.
  - exact (@eval_inflection_midpoint Samples.tent_kde FGD.init
             Samples.six_scores ltac:(discriminate)).
  - exact (@eval_inflection_midpoint Samples.flat_kde FGD.init
             Samples.two_scores ltac:(discriminate)).
Defined.


Lemma eval_reflected_maximum_witness :
  exists m,
    let limit := if Qgtb m (1 # 2) then (1 - m)%Q else m in
    DECOMP.eval Samples.ecdf Samples.centred DECOMP.default Samples.four_scores
    = ({| DECOMP.method := DECOMP.PCA; DECOMP.thresh_ := Some limit |},
       Ok (Utility.cut (Utility.normalize Samples.four_scores) limit)).
Proof.
  destruct (@eval_reflected_maximum Samples.ecdf Samples.centred
              DECOMP.default Samples.four_scores
              ltac:(discriminate) ltac:(vm_compute; discriminate))
    as (m & _ & _ & H).
  exists m. exact H.
Defined.

Lemma thresh_at_most_half_witness :
  exists limit,
    DECOMP.thresh_
      (fst (DECOMP.eval Samples.ecdf Samples.centred DECOMP.default
              Samples.four_scores)) = Some limit /\
    (limit <= 1 # 2)%Q.
Proof.
  destruct (@thresh_at_most_half Samples.ecdf Samples.centred
              DECOMP.default
              (fst (DECOMP.eval Samples.ecdf Samples.centred DECOMP.default
                      Samples.four_scores))
              Samples.four_scores [0; 0; 0; 1]%Z
              ltac:(vm_compute; reflexivity))
    as (m & limit & _ & Ht & Hle & _).
  exists limit. split; [exact Ht | exact Hle].
Defined.

Lemma eval_repeatable_witness :
  let s := Thresholders.Mcst MCST.default 7%Z in
  let s1 := fst (Samples.eval s Samples.four_scores) in
  snd (Samples.eval s1 Samples.four_scores) = snd (Samples.eval s Samples.four_scores)
  /\ Thresholders.thresh_ (fst (Samples.eval s1 Samples.four_scores))
     = Thresholders.thresh_ s1.
Proof.
  cbv zeta.
  exact (proj1 (@eval_repeatable
                  Samples.tent_kde Samples.trapz Samples.ecdf Samples.centred
                  Samples.closeness Z Samples.lcg_seeded Samples.lcg_draw
                  Samples.log_standin Samples.sqrt_standin Samples.box_filter
                  10%nat (Thresholders.Mcst MCST.default 7%Z) Samples.four_scores
                  ltac:(simpl; discriminate))).
Defined.

(** C8 as stated fails for [MCST(random_state=None)]: on the seven scores
    the second call draws other samples than the first and gives other
    labels and another threshold. *)
Lemma eval_differs_without_seed :
  exists (s : Samples.strategy) (decision : list Q),
    s = Thresholders.Mcst (MCST.init None) 7%Z /\
    decision = Samples.seven_scores /\
    snd (Samples.eval (fst (Samples.eval s decision)) decision)
    <> snd (Samples.eval s decision) /\
    Thresholders.thresh_ (fst (Samples.eval (fst (Samples.eval s decision)) decision))
    <> Thresholders.thresh_ (fst (Samples.eval s decision)).
Proof.
  exists (Thresholders.Mcst (MCST.init None) 7%Z), Samples.seven_scores.
  split; [reflexivity|]. split; [reflexivity|].
  split; vm_compute; discriminate.
Qed.

Lemma nbins_retained_across_calls_witness :
  let self := HIST.init HIST.otsu None in
  let self1 := fst (Samples.hist_eval self Samples.four_scores) in
  let self2 := fst (Samples.hist_eval self1 Samples.seven_scores) in
  HIST.nbins self1 = Some 2%Z /\ HIST.nbins self2 = Some 2%Z.
Proof.
  cbv zeta.
  destruct (@nbins_retained_across_calls
              Samples.log_standin Samples.sqrt_standin Samples.box_filter
              10%nat HIST.otsu None Samples.four_scores Samples.seven_scores 2%Z
              ltac:(discriminate) ltac:(discriminate)
              ltac:(vm_compute; reflexivity))
    as (H1 & _ & H2 & _).
  split; [exact H1 | exact H2].
Defined.

Lemma default_nbins_truncated_witness :
  HIST.nbins
    (fst (Samples.hist_eval (HIST.init HIST.otsu None) Samples.four_scores))
  = Some 2%Z
  /\ exists k, HIST.default_nbins 4 = Ok k /\ (7 * 4 / 10 - 1 <= k <= 7 * 4 / 10)%Z.
Proof.
  pose proof (@default_nbins_truncated
                Samples.log_standin Samples.sqrt_standin Samples.box_filter
                10%nat HIST.otsu None Samples.four_scores
                ltac:(discriminate)) as [H1 H2].
  split.
  - exact (proj1 (H1 2%Z ltac:(vm_compute; reflexivity))).
  - destruct (H2 ltac:(vm_compute; discriminate)) as (k & Hk & Hb & _).
    exists k. split; [exact Hk | exact Hb].
Defined.

(** C3, as stated, fails on four scores: the bin count is 2, and 2 is not
    [0.7 * 4 = 2.8] rounded to a nearest integer. *)
Lemma default_nbins_not_rounded :
  exists (decision : list Q) (k : Z),
    decision <> [] /\
    (forall np_log np_sqrt uniform_filter1d fuel m,
        HIST.nbins
          (fst (HIST.eval np_log np_sqrt uniform_filter1d fuel
                  (HIST.init m None) decision)) = Some k) /\
    ~ HIST.nearest_integer ((7 # 10) * inject_Z (Z.of_nat (length decision))) k.
Proof.
  exists [0; 1; 2; 3]%Q, 2%Z.
  split; [discriminate|]. split.
  - intros. apply eval_nbins_resolved; [discriminate|].
    vm_compute. reflexivity.
  - unfold HIST.nearest_integer. vm_compute. intros H. apply H. reflexivity.
Qed.

(** * Further properties of the code *)

(** ** Sequences *)

Lemma map2_map_seq {A B C : Type} (f : nat -> A) (g : nat -> B) (h : A -> B -> C)
  (l : list nat) :
  map2 h (map f l) (map g l) = map (fun i => h (f i) (g i)) l.
Proof.
  unfold map2. induction l as [|i l IH]; [reflexivity|].
  simpl. now rewrite IH.
Qed.

Lemma map2_length {A B C : Type} (h : A -> B -> C) (l1 : list A) (l2 : list B) :
  length (map2 h l1 l2) = Nat.min (length l1) (length l2).
Proof. unfold map2. now rewrite length_map, length_combine. Qed.

Lemma but_last_map_seq {A : Type} (f : nat -> A) (n : nat) :
  but_last (map f (seq 0 (S n))) = map f (seq 0 n).
Proof.
  unfold but_last. rewrite seq_S, map_app. simpl. apply removelast_last.
Qed.

Lemma from_1_map_seq {A : Type} (f : nat -> A) (n : nat) :
  from_1 (map f (seq 0 (S n))) = map (fun i => f (S i)) (seq 0 n).
Proof.
  unfold from_1. simpl. rewrite <- seq_shift, map_map. reflexivity.
Qed.

Lemma but_last_length {A : Type} (l : list A) :
  length (but_last l) = (length l - 1)%nat.
Proof.
  unfold but_last. destruct l as [|a l]; [reflexivity|].
  rewrite (app_removelast_last a (l := a :: l)) at 2 by discriminate.
  rewrite length_app. simpl. lia.
Qed.

Lemma from_1_length {A : Type} (l : list A) :
  length (from_1 l) = (length l - 1)%nat.
Proof. destruct l; simpl; lia. Qed.

Lemma In_but_last {A : Type} (l : list A) (x : A) : In x (but_last l) -> In x l.
Proof.
  unfold but_last. destruct l as [|a l]; [tauto|]. intros H.
  rewrite (app_removelast_last a (l := a :: l)) by discriminate.
  apply in_or_app. now left.
Qed.

Lemma py_index_In {A : Type} (l : list A) (i : nat) (x : A) :
  py_index l i = Ok x -> In x l.
Proof.
  unfold py_index. destruct (nth_error l i) eqn:E; [|discriminate].
  intros [= <-]. eapply nth_error_In, E.
Qed.

Lemma py_index_Z_In {A : Type} (l : list A) (i : Z) (x : A) :
  py_index_Z l i = Ok x -> In x l.
Proof.
  unfold py_index_Z. destruct (_ || _); [discriminate|]. apply py_index_In.
Qed.

Lemma np_cumsum_length (l : list Q) : length (np_cumsum l) = length l.
Proof.
  unfold np_cumsum. generalize 0%Q.
  induction l as [|x l IH]; intros acc; simpl; [reflexivity|]. now rewrite IH.
Qed.

Lemma arg_best_bound (better : Q -> Q -> bool) (l : list Q) (best : Q) (besti i : nat) :
  (besti < i)%nat -> (arg_best better best besti i l < i + length l)%nat.
Proof.
  revert best besti i. induction l as [|x l IH]; intros best besti i H; simpl.
  - lia.
  - destruct (better x best).
    + specialize (IH x i (S i)). lia.
    + specialize (IH best besti (S i)). lia.
Qed.

(** [np.argmax] and [np.argmin] raise exactly on the empty array, and
    otherwise give an index of the array. *)
Lemma np_argmax_index (l : list Q) :
  l <> [] -> exists i, np_argmax l = Ok i /\ (i < length l)%nat.
Proof.
  destruct l as [|x l]; [congruence|]. intros _. eexists. split; [reflexivity|].
  pose proof (@arg_best_bound Qgtb l x 0%nat 1%nat). simpl. lia.
Qed.

Lemma np_argmin_index (l : list Q) :
  l <> [] -> exists i, np_argmin l = Ok i /\ (i < length l)%nat.
Proof.
  destruct l as [|x l]; [congruence|]. intros _. eexists. split; [reflexivity|].
  pose proof (@arg_best_bound Qltb l x 0%nat 1%nat). simpl. lia.
Qed.

(** ** [histogram] *)

(** The centre of bin [i] out of [n]. *)
Lemma bin_center_value (n i : nat) :
  (i < n)%nat ->
  let step := ((1 - 0) / inject_Z (Z.of_nat (S n - 1)))%Q in
  (((0 + inject_Z (Z.of_nat i) * step) + (0 + inject_Z (Z.of_nat (S i)) * step)) / 2
   == inject_Z (2 * Z.of_nat i + 1) / inject_Z (2 * Z.of_nat n))%Q.
Proof.
  intros Hi step. unfold step.
  replace (S n - 1)%nat with n by lia.
  rewrite Nat2Z.inj_succ. unfold Z.succ.
  rewrite !inject_Z_plus, !inject_Z_mult.
  assert (Hn : ~ (inject_Z (Z.of_nat n) == 0)%Q).
  { unfold Qeq. simpl. lia. }
  field. exact Hn.
Qed.

Lemma bin_center_inside (n i : nat) (c : Q) :
  (i < n)%nat ->
  (c == inject_Z (2 * Z.of_nat i + 1) / inject_Z (2 * Z.of_nat n))%Q ->
  (0 < c < 1)%Q.
Proof.
  intros Hi Hc. rewrite Hc.
  assert (Hd : (0 < inject_Z (2 * Z.of_nat n))%Q).
  { change 0%Q with (inject_Z 0). rewrite <- Zlt_Qlt. lia. }
  split.
  - apply Qlt_shift_div_l; [exact Hd|]. rewrite Qmult_0_l.
    change 0%Q with (inject_Z 0). rewrite <- Zlt_Qlt. lia.
  - apply Qlt_shift_div_r; [exact Hd|]. rewrite Qmult_1_l.
    rewrite <- Zlt_Qlt. lia.
Qed.

Lemma histogram_centers (decision : list Q) (nbins : Z) :
  (1 <= nbins)%Z ->
  exists counts,
    HIST.histogram decision nbins
    = Ok (map (fun i =>
                 (((0 + inject_Z (Z.of_nat i)
                        * ((1 - 0) / inject_Z (Z.of_nat (S (Z.to_nat nbins) - 1))))
                   + (0 + inject_Z (Z.of_nat (S i))
                          * ((1 - 0) / inject_Z (Z.of_nat (S (Z.to_nat nbins) - 1)))))
                  / 2)%Q)
              (seq 0 (Z.to_nat nbins)),
          counts)
    /\ length counts = Z.to_nat nbins
    /\ counts
       = map (fun i =>
                Z.of_nat (length (filter (fun x => (HIST.bin_of (Z.to_nat nbins) x =? i)%nat)
                                    (filter (fun x => Qleb 0 x && Qleb x 1) decision))))
           (seq 0 (Z.to_nat nbins)).
Proof.
  intros Hn. unfold HIST.histogram, HIST.np_histogram.
  destruct (Z.ltb_spec nbins 1); [lia|].
  cbn [bind]. eexists. split; [|split; [|reflexivity]].
  - f_equal. f_equal. unfold np_linspace.
    replace (Z.to_nat nbins + 1)%nat with (S (Z.to_nat nbins)) by lia.
    rewrite but_last_map_seq, from_1_map_seq, map2_map_seq, map_map.
    reflexivity.
  - now rewrite length_map, length_seq.
Qed.

(** X1.  With a positive bin count [histogram] never raises: it gives as
    many centres as counts, [nbins] of each, and the centre of bin [i] is
    [(2i+1)/(2 nbins)], strictly between 0 and 1. *)
Theorem histogram_shape (decision : list Q) (nbins : Z) :
  (1 <= nbins)%Z ->
  exists bin_centers counts,
    HIST.histogram decision nbins = Ok (bin_centers, counts) /\
    length bin_centers = Z.to_nat nbins /\
    length counts = Z.to_nat nbins /\
    forall i, (i < Z.to_nat nbins)%nat ->
      exists c,
        nth_error bin_centers i = Some c /\
        (c == inject_Z (2 * Z.of_nat i + 1) / inject_Z (2 * nbins))%Q /\
        (0 < c < 1)%Q.
Proof.
  intros Hn. destruct (histogram_centers decision Hn) as (counts & Hh & Hl & _).
  eexists _, counts. split; [exact Hh|]. split; [|split; [exact Hl|]].
  - now rewrite length_map, length_seq.
  - intros i Hi. rewrite nth_error_map, nth_error_seq.
    destruct (Nat.ltb_spec i (Z.to_nat nbins)); [|lia]. simpl.
    eexists. split; [reflexivity|].
    pose proof (@bin_center_value (Z.to_nat nbins) i Hi) as Hv. cbv zeta in Hv.
    rewrite Z2Nat.id in Hv by lia.
    split; [exact Hv|]. 
    apply (@bin_center_inside (Z.to_nat nbins) i); [exact Hi|].
    rewrite Z2Nat.id by lia. exact Hv.
Qed.

Lemma histogram_shape_witness :
  exists bin_centers counts,
    HIST.histogram Samples.seven_scores 4 = Ok (bin_centers, counts) /\
    length bin_centers = 4%nat /\ length counts = 4%nat.
Proof.
  destruct (@histogram_shape Samples.seven_scores 4%Z ltac:(lia))
    as (bc & counts & H & H1 & H2 & _).
  exists bc, counts. split; [exact H|]. split; [exact H1 | exact H2].
Defined.

(** *** Every score in range is counted once *)

Lemma fold_add_shift (l : list Z) (a : Z) :
  fold_left Z.add l a = (a + fold_left Z.add l 0)%Z.
Proof.
  revert a. induction l as [|x l IH]; intros a; simpl; [lia|].
  rewrite (IH (a + x)%Z), (IH x). lia.
Qed.

Lemma sum_map_plus {A : Type} (f g : A -> Z) (l : list A) :
  fold_left Z.add (map (fun i => f i + g i)%Z l) 0%Z
  = (fold_left Z.add (map f l) 0 + fold_left Z.add (map g l) 0)%Z.
Proof.
  induction l as [|x l IH]; [reflexivity|]. simpl.
  rewrite (fold_add_shift _ (f x + g x)), (fold_add_shift _ (f x)),
    (fold_add_shift _ (g x)), IH. lia.
Qed.

Lemma sum_indicator (k n : nat) :
  fold_left Z.add (map (fun i => if (k =? i)%nat then 1 else 0)%Z (seq 0 n)) 0%Z
  = if (k <? n)%nat then 1%Z else 0%Z.
Proof.
  induction n as [|n IH]; [reflexivity|].
  rewrite seq_S, map_app, fold_left_app, IH. simpl.
  destruct (Nat.ltb_spec k n), (Nat.eqb_spec k n), (Nat.ltb_spec k (S n)); lia.
Qed.

Lemma counts_per_bin_total {A : Type} (g : A -> nat) (n : nat) (l : list A) :
  (forall x, In x l -> (g x < n)%nat) ->
  fold_left Z.add
    (map (fun i => Z.of_nat (length (filter (fun x => (g x =? i)%nat) l))) (seq 0 n))
    0%Z
  = Z.of_nat (length l).
Proof.
  induction l as [|x l IH]; intros H.
  - simpl. induction (seq 0 n) as [|i s IHs]; [reflexivity|]. exact IHs.
  - rewrite (map_ext
               (fun i => Z.of_nat (length (filter (fun y => (g y =? i)%nat) (x :: l))))
               (fun i => ((if (g x =? i)%nat then 1 else 0)
                          + Z.of_nat (length (filter (fun y => (g y =? i)%nat) l)))%Z)).
    + rewrite sum_map_plus, sum_indicator, IH by (intros y Hy; apply H; now right).
      assert (Hx : (g x < n)%nat) by (apply H; now left).
      destruct (Nat.ltb_spec (g x) n); [|lia]. simpl length. lia.
    + intros i. simpl. destruct (g x =? i)%nat; simpl length; lia.
Qed.

Lemma bin_of_in_range (n : nat) (x : Q) :
  (1 <= n)%nat -> (0 <= x <= 1)%Q -> (HIST.bin_of n x < n)%nat.
Proof.
  intros Hn [H0 H1]. unfold HIST.bin_of.
  destruct (Qeq_bool x 1) eqn:E; [lia|].
  apply Qeq_bool_neq in E.
  assert (Hlt : (x < 1)%Q).
  { destruct (Qlt_le_dec x 1) as [?|Hge]; [assumption|].
    exfalso. apply E. apply Qle_antisym; assumption. }
  assert (Hf : (Qfloor (x * inject_Z (Z.of_nat n)) < Z.of_nat n)%Z).
  { rewrite Zlt_Qlt. eapply Qle_lt_trans; [apply Qfloor_le|].
    rewrite <- (Qmult_1_l (inject_Z (Z.of_nat n))) at 2.
    apply Qmult_lt_compat_r; [|exact Hlt].
    change 0%Q with (inject_Z 0). rewrite <- Zlt_Qlt. lia. }
  lia.
Qed.

Lemma filter_all {A : Type} (f : A -> bool) (l : list A) :
  (forall x, In x l -> f x = true) -> filter f l = l.
Proof.
  induction l as [|x l IH]; intros H; [reflexivity|]. simpl.
  rewrite (H x) by now left. f_equal. apply IH. intros y Hy. apply H. now right.
Qed.

(** X2.  When every score lies in [0,1], as normalized scores do, no score
    is dropped and each is counted in exactly one bin: the counts add up to
    the number of scores. *)
Theorem histogram_counts_every_score (decision bin_centers : list Q)
  (counts : list Z) (nbins : Z) :
  (forall x, In x decision -> (0 <= x <= 1)%Q) ->
  HIST.histogram decision nbins = Ok (bin_centers, counts) ->
  fold_left Z.add counts 0%Z = Z.of_nat (length decision)
  /\ forall c, In c counts -> (0 <= c)%Z.
Proof.
  intros Hr Hh.
  assert (Hn : (1 <= nbins)%Z).
  { unfold HIST.histogram, HIST.np_histogram in Hh.
    destruct (Z.ltb_spec nbins 1); [discriminate | lia]. }
  destruct (histogram_centers decision Hn) as (counts' & Hh' & _ & Hc).
  rewrite Hh in Hh'. injection Hh' as _ ->. subst counts'.
  rewrite (@filter_all _ (fun x => Qleb 0 x && Qleb x 1) decision).
  - split.
    + apply counts_per_bin_total. intros x Hx.
      apply bin_of_in_range; [lia | apply Hr, Hx].
    + intros c Hc. apply in_map_iff in Hc. destruct Hc as (i & <- & _). lia.
  - intros x Hx. destruct (Hr x Hx) as [H0 H1].
    apply andb_true_iff. split; apply Qleb_le; assumption.
Qed.

Lemma histogram_counts_every_score_witness :
  fold_left Z.add [4; 0; 0; 3]%Z 0%Z
  = Z.of_nat (length (Utility.normalize Samples.seven_scores)).
Proof.
  refine (proj1 (@histogram_counts_every_score
                   (Utility.normalize Samples.seven_scores)
                   [4 # 32; 12 # 32; 20 # 32; 28 # 32]%Q [4; 0; 0; 3]%Z 4%Z _ _)).
  - intros x Hx. apply normalize_range in Hx. exact Hx.
  - vm_compute. reflexivity.
Defined.

(** ** [find_local_maxima_idx] *)

Lemma HdRel_from_bound (a : nat) (l : list nat) :
  (forall i, In i l -> (a + 2 <= i)%nat) ->
  HdRel (fun x y => (x + 2 <= y)%nat) a l.
Proof.
  destruct l as [|b l]; intros H; constructor. apply H. now left.
Qed.

(** The loop from index [a] on: what it appends are indices at which the
    histogram, not lower than just before, falls; no two of them adjacent. *)
Lemma local_maxima_loop_spec (hist : list Q) (n a : nat) (direction : Z)
  (acc : list nat) :
  (a + n + 1 <= length hist \/ n = 0)%nat ->
  ((0 < direction)%Z -> (1 <= a)%nat -> (nth (a - 1) hist 0 <= nth a hist 0)%Q) ->
  exists new,
    HIST.local_maxima_loop hist (seq a n) direction acc = Ok (acc ++ new) /\
    Sorted (fun x y => (x + 2 <= y)%nat) new /\
    forall i, In i new ->
      (a + (if (direction >? 0)%Z then 0 else 1) <= i /\ i + 1 < length hist)%nat /\
      (nth (i + 1) hist 0 < nth i hist 0)%Q /\
      ((1 <= i)%nat -> (nth (i - 1) hist 0 <= nth i hist 0)%Q).
Proof.
  revert a direction acc.
  induction n as [|n IH]; intros a direction acc Hlen Hleft.
  - exists []. simpl. rewrite app_nil_r. repeat split; try constructor; contradiction.
  - assert (Hl : (a + S n + 1 <= length hist)%nat) by lia.
    cbn [seq HIST.local_maxima_loop].
    rewrite (py_index_nth hist 0%Q) by lia.
    rewrite (py_index_nth hist 0%Q) by lia.
    cbn [bind].
    assert (Hnext : forall dir' acc',
               ((0 < dir')%Z -> (nth a hist 0 <= nth (a + 1) hist 0)%Q) ->
               exists new,
                 HIST.local_maxima_loop hist (seq (S a) n) dir' acc' = Ok (acc' ++ new) /\
                 Sorted (fun x y => (x + 2 <= y)%nat) new /\
                 forall i, In i new ->
                   (S a + (if (dir' >? 0)%Z then 0 else 1) <= i /\ i + 1 < length hist)%nat /\
                   (nth (i + 1) hist 0 < nth i hist 0)%Q /\
                   ((1 <= i)%nat -> (nth (i - 1) hist 0 <= nth i hist 0)%Q)).
    { intros dir' acc' H. apply IH; [lia|].
      intros Hd _. replace (S a - 1)%nat with a by lia.
      replace (S a) with (a + 1)%nat by lia. now apply H. }
    destruct (Z.gtb_spec direction 0) as [Hpos|Hneg].
    + destruct (Qltb (nth (a + 1) hist 0) (nth a hist 0)) eqn:E.
      * apply Qltb_lt in E.
        destruct (Hnext (-1)%Z (acc ++ [a])) as (new & Hrun & Hs & Hin); [lia|].
        exists (a :: new). split; [|split].
        -- rewrite Hrun, <- app_assoc. reflexivity.
        -- constructor; [exact Hs|]. apply HdRel_from_bound.
           intros i Hi. destruct (Hin i Hi) as [[Hge _] _]. simpl in Hge. lia.
        -- intros i [<-|Hi].
           ++ repeat split; try lia; [exact E|]. intros Ha. apply Hleft; lia.
           ++ destruct (Hin i Hi) as [[Hge Hlt] Hrest]. simpl in Hge.
              split; [lia | exact Hrest].
      * apply Qltb_nlt in E.
        destruct (Hnext direction acc) as (new & Hrun & Hs & Hin).
        { intros _. apply Qnot_lt_le, E. }
        exists new. split; [exact Hrun|]. split; [exact Hs|].
        intros i Hi. destruct (Hin i Hi) as [[Hge Hlt] Hrest].
        destruct (Z.gtb_spec direction 0); [|lia].
        split; [lia | exact Hrest].
    + destruct (Qgtb (nth (a + 1) hist 0) (nth a hist 0)) eqn:E.
      * apply Qgtb_gt in E.
        destruct (Hnext 1%Z acc) as (new & Hrun & Hs & Hin).
        { intros _. apply Qlt_le_weak, E. }
        exists new. split; [exact Hrun|]. split; [exact Hs|].
        intros i Hi. destruct (Hin i Hi) as [[Hge Hlt] Hrest]. simpl in Hge.
        split; [lia | exact Hrest].
      * destruct (Hnext direction acc) as (new & Hrun & Hs & Hin); [lia|].
        exists new. split; [exact Hrun|]. split; [exact Hs|].
        intros i Hi. destruct (Hin i Hi) as [[Hge Hlt] Hrest].
        destruct (Z.gtb_spec direction 0); [lia|].
        split; [lia | exact Hrest].
Qed.

Lemma find_local_maxima_idx_facts (hist : list Q) :
  exists idxs,
    HIST.find_local_maxima_idx hist = Ok idxs /\
    Sorted (fun x y => (x + 2 <= y)%nat) idxs /\
    forall i, In i idxs ->
      (i + 1 < length hist)%nat /\
      (nth (i + 1) hist 0 < nth i hist 0)%Q /\
      ((1 <= i)%nat -> (nth (i - 1) hist 0 <= nth i hist 0)%Q).
Proof.
  unfold HIST.find_local_maxima_idx.
  destruct (@local_maxima_loop_spec hist (length hist - 1) 0%nat 1%Z [])
    as (new & Hrun & Hs & Hin); [lia | lia |].
  exists new. split; [exact Hrun|]. split; [exact Hs|].
  intros i Hi. destruct (Hin i Hi) as [[_ Hlt] Hrest]. split; [exact Hlt | exact Hrest].
Qed.

(** X3.  [find_local_maxima_idx] never raises.  Each index it reports is a
    position where the histogram, not lower than at the position before,
    is strictly higher than at the next one; the last position is never
    reported; and the reported indices increase by at least 2. *)
Theorem find_local_maxima_idx_reports_peaks (hist : list Q) :
  exists idxs,
    HIST.find_local_maxima_idx hist = Ok idxs /\
    Sorted (fun x y => (x + 2 <= y)%nat) idxs /\
    forall i, In i idxs ->
      (i + 1 < length hist)%nat /\
      (nth (i + 1) hist 0 < nth i hist 0)%Q /\
      ((1 <= i)%nat -> (nth (i - 1) hist 0 <= nth i hist 0)%Q).
Proof. apply find_local_maxima_idx_facts. Qed.

(** X4.  A histogram that never falls from one bin to the next has no
    maximum reported, although its last bin is its highest. *)
Theorem find_local_maxima_idx_misses_final_peak (hist : list Q) :
  (forall i, (i + 1 < length hist)%nat -> (nth i hist 0 <= nth (i + 1) hist 0)%Q) ->
  HIST.find_local_maxima_idx hist = Ok [].
Proof.
  intros Hup.
  destruct (find_local_maxima_idx_facts hist) as (idxs & Hrun & _ & Hin).
  rewrite Hrun. f_equal.
  destruct idxs as [|i idxs]; [reflexivity|].
  destruct (Hin i (or_introl eq_refl)) as (Hlt & Hfall & _).
  exfalso. apply (Qlt_irrefl (nth i hist 0)).
  eapply Qle_lt_trans; [apply Hup, Hlt | exact Hfall].
Qed.

Lemma find_local_maxima_idx_misses_final_peak_witness :
  HIST.find_local_maxima_idx [1; 2; 2; 5]%Q = Ok [].
Proof.
  apply find_local_maxima_idx_misses_final_peak.
  intros i Hi. destruct i as [|[|[|i]]]; simpl in Hi; try lia;
    vm_compute; discriminate.
Defined.

(** ** The thresholding methods *)

Ltac lengths :=
  unfold reversed, HIST.astype_float;
  repeat first
    [ rewrite map2_length | rewrite length_map | rewrite but_last_length
    | rewrite from_1_length | rewrite np_cumsum_length | rewrite length_rev ].

(** [bin_centers[np.argmax(crit)]]. *)
Lemma argmax_pick (crit bin_centers : list Q) :
  (length crit = 0%nat ->
   bind (np_argmax crit) (fun idx => py_index bin_centers idx) = Raise ValueError) /\
  ((0 < length crit <= length bin_centers)%nat ->
   exists idx c,
     (idx < length crit)%nat /\ nth_error bin_centers idx = Some c /\
     bind (np_argmax crit) (fun idx => py_index bin_centers idx) = Ok c).
Proof.
  split.
  - intros H. apply length_zero_iff_nil in H. now subst.
  - intros [Hpos Hle].
    destruct (@np_argmax_index crit) as (idx & Hidx & Hlt).
    { intros ->. simpl in Hpos. lia. }
    exists idx, (nth idx bin_centers 0%Q). split; [exact Hlt|]. split.
    + apply nth_error_nth'. lia.
    + rewrite Hidx. cbn [bind]. apply py_index_nth. lia.
Qed.

(** X5.  On a histogram of at least two bins [OTSU_thres] returns one of the
    bin centres, never the last one; on a histogram of one bin, or none, it
    raises [ValueError]. *)
Theorem OTSU_thres_picks_a_center (bin_centers : list Q) (counts : list Z) :
  length bin_centers = length counts ->
  ((length counts < 2)%nat -> HIST.OTSU_thres bin_centers counts = Raise ValueError) /\
  ((2 <= length counts)%nat ->
   exists idx c,
     (idx < length counts - 1)%nat /\ nth_error bin_centers idx = Some c /\
     HIST.OTSU_thres bin_centers counts = Ok c).
Proof.
  intros Hlen. unfold HIST.OTSU_thres.
  match goal with
  | |- context [bind (np_argmax ?v) _] =>
      assert (Hv : length v = (length counts - 1)%nat) by (lengths; lia);
      destruct (argmax_pick v bin_centers) as [Hnone Hsome]
  end.
  rewrite Hv in Hnone, Hsome. split.
  - intros H. apply Hnone. lia.
  - intros H. apply Hsome. lia.
Qed.

Lemma OTSU_thres_picks_a_center_witness :
  exists idx c,
    (idx < 3)%nat /\
    nth_error [4 # 32; 12 # 32; 20 # 32; 28 # 32]%Q idx = Some c /\
    HIST.OTSU_thres [4 # 32; 12 # 32; 20 # 32; 28 # 32]%Q [4; 0; 0; 3]%Z = Ok c.
Proof.
  exact (proj2 (@OTSU_thres_picks_a_center
                  [4 # 32; 12 # 32; 20 # 32; 28 # 32]%Q [4; 0; 0; 3]%Z eq_refl)
           ltac:(simpl; lia)).
Defined.

Section Methods_theory.

Variable np_log : Q -> Q.
Variable np_sqrt : Q -> Q.
Variable uniform_filter1d : list Q -> nat -> list Q.

(** X6.  The same holds of [YEN_thres], whatever the logarithm gives: a bin
    centre other than the last on at least two bins, [ValueError] below. *)
Theorem YEN_thres_picks_a_center (bin_centers : list Q) (counts : list Z) :
  length bin_centers = length counts ->
  ((length counts < 2)%nat ->
   HIST.YEN_thres np_log bin_centers counts = Raise ValueError) /\
  ((2 <= length counts)%nat ->
   exists idx c,
     (idx < length counts - 1)%nat /\ nth_error bin_centers idx = Some c /\
     HIST.YEN_thres np_log bin_centers counts = Ok c).
Proof.
  intros Hlen. unfold HIST.YEN_thres.
  match goal with
  | |- context [bind (np_argmax ?v) _] =>
      assert (Hv : length v = (length counts - 1)%nat) by (lengths; lia);
      destruct (argmax_pick v bin_centers) as [Hnone Hsome]
  end.
  rewrite Hv in Hnone, Hsome. split.
  - intros H. apply Hnone. lia.
  - intros H. apply Hsome. lia.
Qed.

End Methods_theory.

Lemma YEN_thres_picks_a_center_witness :
  HIST.YEN_thres Samples.log_standin [1 # 2]%Q [2]%Z = Raise ValueError.
Proof.
  exact (proj1 (@YEN_thres_picks_a_center Samples.log_standin
                  [1 # 2]%Q [2]%Z eq_refl)
           ltac:(simpl; lia)).
Defined.

Lemma In_select {A : Type} (mask : list bool) (l : list A) (x : A) :
  In x (select mask l) -> In x l.
Proof.
  unfold select. rewrite in_map_iff. intros ([b y] & <- & H).
  apply filter_In in H. destruct H as [H _]. eapply in_combine_r, H.
Qed.

(** X7.  [ISODATA_thres] raises [IndexError] on a histogram of fewer than two
    bins, and no other exception on any histogram; the threshold it returns
    is a bin centre other than the last. *)
Theorem ISODATA_thres_outcomes (bin_centers : list Q) (counts : list Z) :
  length bin_centers = length counts ->
  ((length counts < 2)%nat ->
   HIST.ISODATA_thres bin_centers counts = Raise IndexError) /\
  (forall e, HIST.ISODATA_thres bin_centers counts = Raise e -> e = IndexError) /\
  (forall c, HIST.ISODATA_thres bin_centers counts = Ok c ->
             In c (but_last bin_centers)).
Proof.
  intros Hlen. unfold HIST.ISODATA_thres.
  set (fc := HIST.astype_float counts).
  assert (Hfc : length fc = length counts) by (unfold fc; lengths; reflexivity).
  assert (Hidx : forall (A : Type) (l : list A) (i : nat) e,
             py_index l i = Raise e -> e = IndexError).
  { intros A l i e. unfold py_index. destruct (nth_error l i); congruence. }
  assert (HidxZ : forall (A : Type) (l : list A) (i : Z) e,
             py_index_Z l i = Raise e -> e = IndexError).
  { intros A l i e. unfold py_index_Z. destruct (_ || _); [congruence | apply Hidx]. }
  split; [|split].
  - intros Hlt.
    destruct counts as [|k [|k' counts]]; simpl in Hlt; try lia.
    + reflexivity.
    + destruct bin_centers as [|b [|b' bin_centers]]; simpl in Hlen; try lia.
      reflexivity.
  - intros e.
    repeat match goal with
           | |- bind ?c _ = Raise _ -> _ =>
               let E := fresh "E" in
               destruct c eqn:E; cbn [bind];
               [| intros [= <-];
                  first [ eapply HidxZ; exact E | eapply Hidx; exact E ] ]
           end.
    apply Hidx.
  - intros c.
    repeat match goal with
           | |- bind ?c _ = Ok _ -> _ =>
               destruct c; cbn [bind]; [|discriminate]
           end.
    intros H. apply py_index_In in H. eapply In_select, H.
Qed.

Lemma ISODATA_thres_outcomes_witness :
  HIST.ISODATA_thres [1 # 2]%Q [2]%Z = Raise IndexError.
Proof.
  exact (proj1 (@ISODATA_thres_outcomes [1 # 2]%Q [2]%Z eq_refl)
           ltac:(simpl; lia)).
Defined.

Lemma Qinsert_In (x y : Q) (l : list Q) : In y (Qinsert x l) -> y = x \/ In y l.
Proof.
  induction l as [|z l IH]; simpl.
  - intros [<-|[]]. now left.
  - destruct (Qleb x z); simpl.
    + intros [<-|H]; [now left | now right].
    + intros [<-|H]; [right; now left|].
      destruct (IH H) as [->|H']; [now left | right; now right].
Qed.

Lemma Qsort_In (y : Q) (l : list Q) : In y (Qsort l) -> In y l.
Proof.
  unfold Qsort. induction l as [|x l IH]; simpl; [tauto|].
  intros H. destruct (Qinsert_In _ _ _ H) as [->|H']; [now left | right; now apply IH].
Qed.

Lemma dedup_all_equal (l : list Q) :
  (forall x y, In x l -> In y l -> (x == y)%Q) -> (length (dedup l) <= 1)%nat.
Proof.
  induction l as [|x [|y r] IH]; intros H; simpl; try lia.
  assert (E : Qeq_bool x y = true).
  { apply Qeq_bool_iff. apply H; simpl; auto. }
  rewrite E. apply IH. intros a b Ha Hb. apply H; now right.
Qed.

Lemma np_diff_short (l : list Q) : (length l <= 1)%nat -> np_diff l = [].
Proof.
  destruct l as [|a [|b l]]; simpl; intros H; try lia; reflexivity.
Qed.

Section More_methods_theory.

Variable np_log : Q -> Q.
Variable np_sqrt : Q -> Q.
Variable uniform_filter1d : list Q -> nat -> list Q.

(** X8.  [LI_thres] raises [ValueError] when all the scores are equal: there
    is no gap between distinct scores to take the tolerance from.  This is
    so for any histogram and before the first round of the loop. *)
Theorem LI_thres_needs_two_values (fuel : nat) (decision bin_centers : list Q)
  (counts : list Z) :
  (forall x y, In x decision -> In y decision -> (x == y)%Q) ->
  HIST.LI_thres np_log fuel decision bin_centers counts = Raise ValueError.
Proof.
  intros Heq. unfold HIST.LI_thres.
  rewrite np_diff_short; [reflexivity|].
  unfold np_unique. apply dedup_all_equal.
  intros x y Hx Hy. apply Heq; now apply Qsort_In.
Qed.

(** The loop of [Minimum_thres] does not raise, and after at least one round
    the indices it holds are the maxima of the histogram it holds. *)
Lemma smooth_loop_result (n : nat) (smooth_hist : list Q) (acc : list nat) :
  exists s idxs,
    HIST.smooth_loop uniform_filter1d n smooth_hist acc = Ok (s, idxs) /\
    ((1 <= n)%nat -> HIST.find_local_maxima_idx s = Ok idxs).
Proof.
  revert smooth_hist acc. induction n as [|n IH]; intros smooth_hist acc.
  - exists smooth_hist, acc. split; [reflexivity | lia].
  - cbn [HIST.smooth_loop].
    destruct (find_local_maxima_idx_facts (uniform_filter1d smooth_hist 3))
      as (idxs & Hrun & _).
    rewrite Hrun. cbn [bind].
    destruct (length idxs <? 3)%nat.
    + exists (uniform_filter1d smooth_hist 3), idxs. split; [reflexivity|]. now intros _.
    + destruct (IH (uniform_filter1d smooth_hist 3) idxs) as (s & idxs' & Hl & Hm).
      exists s, idxs'. split; [exact Hl|]. intros _.
      destruct n as [|n]; [|apply Hm; lia].
      cbn in Hl. injection Hl as <- <-. exact Hrun.
Qed.

Lemma smooth_loop_stops_early (n : nat) (smooth_hist : list Q) (acc idxs : list nat) :
  HIST.find_local_maxima_idx (uniform_filter1d smooth_hist 3) = Ok idxs ->
  (length idxs < 3)%nat ->
  HIST.smooth_loop uniform_filter1d (S n) smooth_hist acc
  = Ok (uniform_filter1d smooth_hist 3, idxs).
Proof.
  intros Hrun Hlt. cbn [HIST.smooth_loop]. rewrite Hrun. cbn [bind].
  destruct (Nat.ltb_spec (length idxs) 3); [reflexivity | lia].
Qed.

(** X9.  [Minimum_thres] raises [IndexError] when the histogram smoothed once
    has fewer than two local maxima.  Whatever the histogram, and with the
    smoothing filter a total function, it raises no other exception: the
    slice handed to [np.argmin] is never empty.  A threshold it returns is a
    bin centre. *)
Theorem Minimum_thres_outcomes (bin_centers : list Q) (counts : list Z) :
  (forall idxs,
      HIST.find_local_maxima_idx (uniform_filter1d (HIST.astype_float counts) 3)
      = Ok idxs ->
      (length idxs < 2)%nat ->
      HIST.Minimum_thres uniform_filter1d bin_centers counts = Raise IndexError) /\
  (forall e, HIST.Minimum_thres uniform_filter1d bin_centers counts = Raise e ->
             e = IndexError) /\
  (forall c, HIST.Minimum_thres uniform_filter1d bin_centers counts = Ok c ->
             In c bin_centers).
Proof.
  assert (Hidx : forall (A : Type) (l : list A) (i : nat) e,
             py_index l i = Raise e -> e = IndexError).
  { intros A l i e. unfold py_index. destruct (nth_error l i); congruence. }
  unfold HIST.Minimum_thres. split; [|split].
  - intros idxs Hrun Hlt.
    change (100 * 100)%nat with (S (100 * 100 - 1)).
    rewrite (@smooth_loop_stops_early _ _ _ idxs Hrun) by lia.
    cbn [bind].
    destruct idxs as [|m0 [|m1 idxs]]; simpl in Hlt; try lia; reflexivity.
  - intros e.
    destruct (smooth_loop_result (100 * 100) (HIST.astype_float counts) [])
      as (s & idxs & Hl & Hm).
    rewrite Hl. cbn [bind].
    destruct (py_index idxs 0) as [m0|e0] eqn:E0; cbn [bind];
      [|intros [= <-]; eapply Hidx, E0].
    destruct (py_index idxs 1) as [m1|e1] eqn:E1; cbn [bind];
      [|intros [= <-]; eapply Hidx, E1].
    destruct (find_local_maxima_idx_facts s) as (idxs' & Hrun & Hs & Hin).
    rewrite Hm in Hrun by lia. injection Hrun as <-.
    destruct idxs as [|a [|b idxs]]; try discriminate.
    cbn in E0, E1. injection E0 as ->. injection E1 as ->.
    assert (Ha : (m0 + 1 < length s)%nat) by (apply Hin; now left).
    assert (Hab : (m0 + 2 <= m1)%nat).
    { inversion Hs as [|? ? _ Hd]; subst. inversion Hd; subst. assumption. }
    destruct (@np_argmin_index (slice m0 (m1 + 1) s)) as (i & Hi & _).
    { unfold slice. intros Hnil. apply (f_equal (@length Q)) in Hnil.
      rewrite length_firstn, length_skipn in Hnil. simpl in Hnil. lia. }
    rewrite Hi. cbn [bind]. apply Hidx.
  - intros c.
    destruct (HIST.smooth_loop _ _ _ _) as [[s idxs]|e]; cbn [bind]; [|discriminate].
    repeat match goal with
           | |- bind ?c _ = Ok _ -> _ => destruct c; cbn [bind]; [|discriminate]
           end.
    apply py_index_In.
Qed.

End More_methods_theory.

Lemma LI_thres_needs_two_values_witness :
  HIST.LI_thres Samples.log_standin 10 [0; 0; 0]%Q [1 # 4; 3 # 4]%Q [3; 0]%Z
  = Raise ValueError.
Proof.
  apply LI_thres_needs_two_values.
  intros x y Hx Hy. simpl in Hx, Hy.
  repeat match goal with H : _ \/ _ |- _ => destruct H as [<-|H] end;
    try contradiction; reflexivity.
Defined.

Lemma Minimum_thres_outcomes_witness :
  HIST.Minimum_thres Samples.box_filter [4 # 32; 12 # 32; 20 # 32; 28 # 32]%Q
    [4; 0; 0; 3]%Z = Raise IndexError.
Proof.
  apply (proj1 (@Minimum_thres_outcomes Samples.box_filter
                  [4 # 32; 12 # 32; 20 # 32; 28 # 32]%Q [4; 0; 0; 3]%Z) [0%nat]).
  - vm_compute. reflexivity.
  - simpl. lia.
Defined.

Lemma filter_none {A : Type} (f : A -> bool) (l : list A) :
  (forall x, In x l -> f x = false) -> filter f l = [].
Proof.
  induction l as [|x l IH]; intros H; [reflexivity|]. simpl.
  rewrite (H x) by now left. apply IH. intros y Hy. apply H. now right.
Qed.

Lemma np_where_none {A : Type} (mask : A -> bool) (l : list A) :
  (forall x, In x l -> mask x = false) -> np_where mask l = [].
Proof.
  intros H. unfold np_where. apply filter_none. intros i _.
  destruct (nth_error l i) as [x|] eqn:E; [|reflexivity].
  apply H. eapply nth_error_In, E.
Qed.

Lemma py_index_Z_of_nat {A : Type} (l : list A) (i : nat) :
  (i < length l)%nat -> exists x, py_index_Z l (Z.of_nat i) = Ok x.
Proof.
  intros Hi. unfold py_index_Z.
  destruct (Z.ltb_spec (Z.of_nat i) (- Z.of_nat (length l))); [lia|].
  destruct (Z.leb_spec (Z.of_nat (length l)) (Z.of_nat i)); [lia|].
  destruct (Z.ltb_spec (Z.of_nat i) 0); [lia|]. cbn [orb].
  rewrite Nat2Z.id. unfold py_index.
  destruct (nth_error l i) as [x|] eqn:E; [now exists x|].
  apply nth_error_None in E. lia.
Qed.

Section Triangle_theory.

Variable np_sqrt : Q -> Q.

(** X10.  [Triangle_thres] raises [ValueError] on a histogram of one bin that
    holds scores (the peak is its own low end, so nothing is left to
    maximise), and [IndexError] on a histogram of empty bins.  A threshold
    it returns is a bin centre. *)
Theorem Triangle_thres_outcomes (bin_centers : list Q) (counts : list Z) :
  (forall k, (0 < k)%Z -> counts = [k] ->
             HIST.Triangle_thres np_sqrt bin_centers counts = Raise ValueError) /\
  (counts <> [] -> (forall k, In k counts -> (k <= 0)%Z) ->
   HIST.Triangle_thres np_sqrt bin_centers counts = Raise IndexError) /\
  (forall c, HIST.Triangle_thres np_sqrt bin_centers counts = Ok c ->
             In c bin_centers).
Proof.
  split; [|split].
  - intros k Hk ->. unfold HIST.Triangle_thres, np_where. cbn.
    apply Z.ltb_lt in Hk. rewrite Hk. reflexivity.
  - intros Hne Hz. unfold HIST.Triangle_thres.
    destruct (@np_argmax_index (map inject_Z counts)) as (idx & Hidx & Hlt).
    { destruct counts; [congruence | discriminate]. }
    rewrite Hidx. cbn [bind]. rewrite length_map in Hlt.
    destruct (py_index_Z_of_nat counts Hlt) as (peak & Hpeak).
    rewrite Hpeak. cbn [bind].
    rewrite np_where_none; [reflexivity|].
    intros k Hin. apply Z.ltb_ge. now apply Hz.
  - intros c. unfold HIST.Triangle_thres.
    repeat match goal with
           | |- bind ?c _ = Ok _ -> _ => destruct c; cbn [bind]; [|discriminate]
           end.
    apply py_index_Z_In.
Qed.

End Triangle_theory.

Lemma Triangle_thres_outcomes_witness :
  HIST.Triangle_thres Samples.sqrt_standin [1 # 2]%Q [2]%Z = Raise ValueError.
Proof.
  exact (proj1 (@Triangle_thres_outcomes Samples.sqrt_standin [1 # 2]%Q [2]%Z)
           2%Z eq_refl eq_refl).
Defined.

(** ** [HIST.eval] *)

Lemma histogram_center_form (decision bin_centers : list Q) (counts : list Z)
  (nbins : Z) (c : Q) :
  HIST.histogram decision nbins = Ok (bin_centers, counts) ->
  In c bin_centers ->
  exists i, (0 <= i < nbins)%Z /\
            (c == inject_Z (2 * i + 1) / inject_Z (2 * nbins))%Q /\
            (0 < c < 1)%Q.
Proof.
  intros Hh Hin.
  assert (Hn : (1 <= nbins)%Z).
  { unfold HIST.histogram, HIST.np_histogram in Hh.
    destruct (Z.ltb_spec nbins 1); [discriminate | assumption]. }
  destruct (histogram_centers decision Hn) as (counts' & Hrun & _).
  rewrite Hrun in Hh. injection Hh as <- <-.
  apply in_map_iff in Hin. destruct Hin as (i & <- & Hi).
  apply in_seq in Hi.
  assert (Hv := @bin_center_value (Z.to_nat nbins) i ltac:(lia)).
  cbv zeta in Hv. rewrite Z2Nat.id in Hv by lia.
  exists (Z.of_nat i). split; [lia|]. split; [exact Hv|].
  apply (@bin_center_inside (Z.to_nat nbins) i); [lia|].
  rewrite Z2Nat.id by lia. exact Hv.
Qed.

Section HIST_eval_theory.

Variable np_log : Q -> Q.
Variable np_sqrt : Q -> Q.
Variable uniform_filter1d : list Q -> nat -> list Q.

Local Abbreviation threshold_with := (HIST.threshold_with np_log np_sqrt uniform_filter1d).
Local Abbreviation threshold_and_labels :=
  (HIST.threshold_and_labels np_log np_sqrt uniform_filter1d).
Local Abbreviation eval := (HIST.eval np_log np_sqrt uniform_filter1d).

Lemma threshold_with_center (fuel : nat) (m : HIST.method_t)
  (decision bin_centers : list Q) (counts : list Z) (c : Q) :
  m <> HIST.li ->
  threshold_with fuel m decision bin_centers counts = Ok c ->
  In c bin_centers.
Proof.
  intros Hm.
  destruct m; try congruence; cbn [HIST.threshold_with];
    unfold HIST.OTSU_thres, HIST.YEN_thres, HIST.ISODATA_thres, HIST.Minimum_thres,
      HIST.Triangle_thres;
    try (destruct (HIST.smooth_loop _ _ _ _) as [[s idxs]|e]; cbn [bind];
         [|discriminate]);
    repeat match goal with
           | |- bind ?c _ = Ok _ -> _ => destruct c; cbn [bind]; [|discriminate]
           end;
    intros H;
    first [ apply py_index_Z_In in H; exact H
          | apply py_index_In in H; first [ exact H | eapply In_but_last, In_select, H ] ].
Qed.

(** The two outcomes of [eval] on a non-empty input whose bin count is
    settled. *)
Lemma eval_outcome (fuel : nat) (self : HIST.t) (decision : list Q) (k : Z) :
  decision <> [] ->
  match HIST.nbins self with
  | None => HIST.default_nbins (length decision)
  | Some k => Ok k
  end = Ok k ->
  eval fuel self decision
  = match HIST.histogram (Utility.normalize decision) k with
    | Raise e =>
        ({| HIST.nbins := Some k; HIST.method := HIST.method self;
            HIST.thresh_ := HIST.thresh_ self |}, Raise e)
    | Ok (bin_centers, counts) =>
        match threshold_with fuel (HIST.method self) (Utility.normalize decision)
                bin_centers counts with
        | Raise e =>
            ({| HIST.nbins := Some k; HIST.method := HIST.method self;
                HIST.thresh_ := HIST.thresh_ self |}, Raise e)
        | Ok c =>
            ({| HIST.nbins := Some k; HIST.method := HIST.method self;
                HIST.thresh_ := Some c |},
             Ok (HIST.label_above (Utility.normalize decision) c))
        end
    end.
Proof.
  intros Hne Hk. rewrite eval_unfold by exact Hne. cbv zeta. rewrite Hk.
  unfold HIST.threshold_and_labels.
  destruct (HIST.histogram _ _) as [[bin_centers counts]|e]; cbn [bind]; [|reflexivity].
  destruct (HIST.threshold_with _ _ _ _ _ _ _ _) as [c|e]; reflexivity.
Qed.

(** X11.  Whenever [eval] returns with a method other than [li], the
    threshold it stores is the centre of one of the [nbins] equal bins of
    [[0, 1]]: [(2i+1)/(2 nbins)] for some [0 <= i < nbins], hence strictly
    between 0 and 1. *)
Theorem eval_threshold_is_a_bin_center (fuel : nat) (self : HIST.t)
  (decision : list Q) (labels : list Z) :
  HIST.method self <> HIST.li ->
  snd (eval fuel self decision) = Ok labels ->
  exists k i c,
    HIST.nbins (fst (eval fuel self decision)) = Some k /\
    HIST.thresh_ (fst (eval fuel self decision)) = Some c /\
    (0 <= i < k)%Z /\
    (c == inject_Z (2 * i + 1) / inject_Z (2 * k))%Q /\
    (0 < c < 1)%Q.
Proof.
  intros Hm.
  destruct decision as [|d ds]; [discriminate|].
  destruct (match HIST.nbins self with
            | None => HIST.default_nbins (length (d :: ds))
            | Some k => Ok k
            end) as [k|e] eqn:Hk.
  - rewrite (@eval_outcome fuel self (d :: ds) k) by (discriminate || exact Hk).
    destruct (HIST.histogram _ _) as [[bin_centers counts]|e] eqn:Hh; [|discriminate].
    destruct (HIST.threshold_with _ _ _ _ _ _ _ _) as [c|e] eqn:Ht; [|discriminate].
    intros _. cbn [fst HIST.nbins HIST.thresh_].
    assert (Hin := threshold_with_center _ _ _ _ Hm Ht).
    destruct (@histogram_center_form _ _ _ _ c Hh Hin) as (i & Hi & Hc & Hr).
    exists k, i, c. repeat split; tauto.
  - rewrite eval_unfold by discriminate. cbv zeta. rewrite Hk. discriminate.
Qed.

(** X12.  When [eval] raises, the threshold of an earlier call stays on the
    instance, and so does the method; the bin count is as before, or is the
    default that this call has worked out from the length of its input. *)
Theorem eval_failure_keeps_threshold (fuel : nat) (self : HIST.t)
  (decision : list Q) (e : exn) :
  snd (eval fuel self decision) = Raise e ->
  HIST.thresh_ (fst (eval fuel self decision)) = HIST.thresh_ self /\
  HIST.method (fst (eval fuel self decision)) = HIST.method self /\
  (HIST.nbins (fst (eval fuel self decision)) = HIST.nbins self \/
   exists k, HIST.nbins self = None /\
             HIST.default_nbins (length decision) = Ok k /\
             HIST.nbins (fst (eval fuel self decision)) = Some k).
Proof.
  destruct decision as [|d ds]; [intros _; repeat split; now left|].
  destruct (match HIST.nbins self with
            | None => HIST.default_nbins (length (d :: ds))
            | Some k => Ok k
            end) as [k|e'] eqn:Hk.
  - rewrite (@eval_outcome fuel self (d :: ds) k) by (discriminate || exact Hk).
    assert (Hn : HIST.nbins self = Some k \/
                 HIST.nbins self = None /\
                 HIST.default_nbins (length (d :: ds)) = Ok k).
    { destruct (HIST.nbins self); [left; congruence | right; now split]. }
    assert (Hgoal : Some k = HIST.nbins self \/
                    exists k0, HIST.nbins self = None /\
                               HIST.default_nbins (length (d :: ds)) = Ok k0 /\
                               Some k = Some k0).
    { destruct Hn as [Hn|[Hn Hd]]; [now left | right; exists k; now repeat split]. }
    destruct (HIST.histogram _ _) as [[bin_centers counts]|e0];
      [|intros _; repeat split; exact Hgoal].
    destruct (HIST.threshold_with _ _ _ _ _ _ _ _) as [c|e0]; [discriminate|].
    intros _. repeat split. exact Hgoal.
  - rewrite eval_unfold by discriminate. cbv zeta. rewrite Hk.
    intros _. repeat split. now left.
Qed.

(** X13.  A bin count below one is refused, whatever the method and the
    scores: [eval] raises [ValueError] and the instance is as it was. *)
Theorem eval_rejects_nonpositive_nbins (fuel : nat) (self : HIST.t)
  (decision : list Q) (k : Z) :
  HIST.nbins self = Some k -> (k < 1)%Z ->
  eval fuel self decision = (self, Raise ValueError).
Proof.
  intros Hn Hk. destruct decision as [|d ds]; [reflexivity|].
  rewrite (@eval_outcome fuel self (d :: ds) k) by (discriminate || now rewrite Hn).
  unfold HIST.histogram, HIST.np_histogram.
  destruct (Z.ltb_spec k 1); [|lia]. cbn [bind].
  destruct self as [nb m th]. cbn in *. now subst.
Qed.

(** With [otsu] or [yen], the count of bins alone decides whether [eval]
    returns. *)
Lemma eval_otsu_yen_cases (fuel : nat) (self : HIST.t) (decision : list Q) (k : Z) :
  HIST.method self = HIST.otsu \/ HIST.method self = HIST.yen ->
  decision <> [] ->
  match HIST.nbins self with
  | None => HIST.default_nbins (length decision)
  | Some k => Ok k
  end = Ok k ->
  ((k < 2)%Z -> snd (eval fuel self decision) = Raise ValueError) /\
  ((2 <= k)%Z -> exists labels, snd (eval fuel self decision) = Ok labels).
Proof.
  intros Hm Hne Hk. rewrite (@eval_outcome fuel self decision k Hne Hk).
  destruct (Z.ltb_spec k 1) as [Hlt|Hge].
  - split; [intros _|lia].
    unfold HIST.histogram, HIST.np_histogram.
    destruct (Z.ltb_spec k 1); [reflexivity | lia].
  - destruct (histogram_centers (Utility.normalize decision) Hge)
      as (counts & Hrun & Hlen).
    rewrite Hrun.
    set (bin_centers := map _ (seq 0 (Z.to_nat k))).
    assert (Hbc : length bin_centers = length counts).
    { unfold bin_centers. now rewrite length_map, length_seq. }
    assert (Hpick :
      ((length counts < 2)%nat ->
       threshold_with fuel (HIST.method self) (Utility.normalize decision)
         bin_centers counts = Raise ValueError) /\
      ((2 <= length counts)%nat ->
       exists c, threshold_with fuel (HIST.method self) (Utility.normalize decision)
                   bin_centers counts = Ok c)).
    { destruct Hm as [-> | ->]; cbn [HIST.threshold_with];
        unfold HIST.OTSU_thres, HIST.YEN_thres;
        match goal with
        | |- context [bind (np_argmax ?v) _] =>
            assert (Hv : length v = (length counts - 1)%nat) by (lengths; lia);
            destruct (argmax_pick v bin_centers) as [Hnone Hsome]
        end;
        rewrite Hv in Hnone, Hsome;
        (split; intros H;
         [ apply Hnone; lia
         | destruct Hsome as (idx & c & _ & _ & Hc); [lia | now exists c] ]). }
    destruct Hpick as [Hnone Hsome]. split; intros H.
    + rewrite Hnone by lia. reflexivity.
    + destruct Hsome as (c & Hc); [lia|]. rewrite Hc. eexists. reflexivity.
Qed.

(** X14.  With the method [otsu] or [yen], [eval] on a non-empty input
    returns labels exactly when the histogram has at least two bins, and
    raises [ValueError] otherwise: the scores themselves play no part. *)
Theorem eval_otsu_yen_needs_two_bins (fuel : nat) (self : HIST.t)
  (decision : list Q) (k : Z) :
  HIST.method self = HIST.otsu \/ HIST.method self = HIST.yen ->
  decision <> [] ->
  HIST.nbins self = Some k ->
  ((k < 2)%Z -> snd (eval fuel self decision) = Raise ValueError) /\
  ((2 <= k)%Z -> exists labels, snd (eval fuel self decision) = Ok labels).
Proof.
  intros Hm Hne Hn. apply eval_otsu_yen_cases; [exact Hm | exact Hne|].
  now rewrite Hn.
Qed.

(** X15.  An instance with the default arguments raises [ValueError] on
    every input of fewer than three scores and returns labels on every input
    of three scores or more, up to the 10000 scores for which the truncated
    binary64 product has been evaluated. *)
Theorem default_needs_three_scores (fuel : nat) (decision : list Q) :
  (length decision <= 100 * 100)%nat ->
  ((length decision < 3)%nat ->
   snd (eval fuel HIST.default decision) = Raise ValueError) /\
  ((3 <= length decision)%nat ->
   exists labels, snd (eval fuel HIST.default decision) = Ok labels).
Proof.
  intros Hlen.
  destruct decision as [|d ds]; [split; [reflexivity | simpl; lia]|].
  destruct (default_nbins_bounds Hlen) as (k & Hk & Hb).
  cbv zeta in Hb. destruct Hb as (Hf & _ & Hsmall).
  destruct (@eval_otsu_yen_cases fuel HIST.default (d :: ds) k) as [Hnone Hsome];
    [now left | discriminate | exact Hk |].
  split; intros H.
  - apply Hnone. rewrite Hsmall by lia.
    apply Z.div_lt_upper_bound; lia.
  - apply Hsome.
    assert (2 <= 7 * Z.of_nat (length (d :: ds)) / 10)%Z
      by (apply Z.div_le_lower_bound; lia).
    destruct (Nat.lt_ge_cases (length (d :: ds)) 90) as [Hs|Hl].
    + rewrite Hsmall by exact Hs. assumption.
    + assert (63 <= 7 * Z.of_nat (length (d :: ds)) / 10)%Z
        by (apply Z.div_le_lower_bound; lia).
      lia.
Qed.

End HIST_eval_theory.

Lemma eval_threshold_is_a_bin_center_witness :
  exists k i c,
    HIST.nbins (fst (Samples.hist_eval HIST.default Samples.seven_scores)) = Some k /\
    HIST.thresh_ (fst (Samples.hist_eval HIST.default Samples.seven_scores)) = Some c /\
    (0 <= i < k)%Z /\
    (c == inject_Z (2 * i + 1) / inject_Z (2 * k))%Q /\
    (0 < c < 1)%Q.
Proof.
  unfold Samples.hist_eval.
  eapply eval_threshold_is_a_bin_center.
  - discriminate.
  - vm_compute. reflexivity.
Defined.

(** ** The thresholds of [AUCP], [FGD] and [MCST] *)

Lemma np_linspace_unit (n : nat) (x : Q) :
  In x (np_linspace 0 1 n) -> (0 <= x <= 1)%Q.
Proof.
  unfold np_linspace. rewrite in_map_iff. intros (i & <- & Hi).
  apply in_seq in Hi.
  assert (E : (0 + inject_Z (Z.of_nat i) * ((1 - 0) / inject_Z (Z.of_nat (n - 1)))
               == inject_Z (Z.of_nat i) / inject_Z (Z.of_nat (n - 1)))%Q).
  { unfold Qdiv. ring. }
  rewrite E. apply Qdiv_part_whole.
  - change 0%Q with (inject_Z 0). rewrite <- Zle_Qle. lia.
  - rewrite <- Zle_Qle. lia.
Qed.

Lemma np_linspace_first (n : nat) :
  (1 <= n)%nat ->
  exists x, nth_error (np_linspace 0 1 n) 0 = Some x /\ (x == 0)%Q.
Proof.
  intros Hn. destruct n as [|n]; [lia|].
  unfold np_linspace. cbn [seq map nth_error]. eexists. split; [reflexivity|].
  change (inject_Z (Z.of_nat 0)) with 0%Q. ring.
Qed.

Section AUCP_range.

Variable kde : list Q -> Q -> Q.
Variable auc : list Q -> list Q -> Q.

Local Abbreviation eval := (AUCP.eval kde auc).

Lemma scan_result (dat_range val : list Q) (bound : Q) (idxs : list nat)
  (limit x : Q) :
  AUCP.scan auc dat_range val bound idxs limit = Ok x ->
  x = limit \/ In x dat_range.
Proof.
  induction idxs as [|i rest IH]; cbn [AUCP.scan].
  - intros [= <-]. now left.
  - destruct (AUCP.metrics_auc _ _ _) as [splt_area|e]; cbn [bind]; [|discriminate].
    destruct (Qltb splt_area bound); [|exact IH].
    intros H. right. eapply py_index_In, H.
Qed.

(** X16.  When [median + |median - mean|] of the normalized scores is above
    one and the area under the density curve is positive, the first round of
    the loop already breaks: the whole area is below the bound.  [thresh_]
    is then the first grid point, 0, and every score above the least one is
    labelled an outlier. *)
Theorem eval_percentage_above_one (self : AUCP.t) (decision : list Q) :
  decision <> [] ->
  let nd := Utility.normalize decision in
  let grid := np_linspace 0 1 (length nd * 2) in
  let val := Utility.normalize (map (kde nd) grid) in
  (0 < auc grid val)%Q ->
  (1 < AUCP.percentage nd)%Q ->
  exists x, (x == 0)%Q /\
            eval self decision
            = ({| AUCP.thresh_ := Some x |}, Ok (Utility.cut nd x)).
Proof.
  intros Hne nd grid val Harea Hperc.
  assert (Hn : (1 <= length nd * 2)%nat).
  { unfold nd. rewrite normalize_length.
    destruct decision; [congruence | simpl; lia]. }
  destruct (np_linspace_first Hn) as (x & Hx & Hx0).
  exists x. split; [exact Hx0|].
  unfold AUCP.eval, AUCP.eval_body.
  destruct decision as [|d ds]; [congruence|].
  cbn [check_array bind Utility.gen_kde]. fold nd. fold grid. fold val.
  assert (Hg : (2 <= length grid)%nat).
  { unfold grid. rewrite np_linspace_length. unfold nd in *.
    rewrite normalize_length in *. simpl in *. lia. }
  rewrite metrics_auc_two by exact Hg. cbn [bind].
  rewrite (@scan_first auc grid val _ 1%Q (length grid) 0%nat 0%nat x).
  - reflexivity.
  - lia.
  - lia.
  - exact Hx.
  - unfold AUCP.crossing, from_i. cbn [skipn].
    setoid_replace (auc grid val) with (1 * auc grid val)%Q at 1 by ring.
    apply Qmult_lt_compat_r; assumption.
  - intros j Hj. lia.
Qed.

(** X17.  Whenever [AUCP.eval] returns, the threshold it stores lies in
    [[0, 1]]: it is a point of the grid. *)
Theorem aucp_threshold_in_unit_interval (self self' : AUCP.t)
  (decision : list Q) (labels : list Z) :
  eval self decision = (self', Ok labels) ->
  exists c, AUCP.thresh_ self' = Some c /\ (0 <= c <= 1)%Q.
Proof.
  unfold AUCP.eval, AUCP.eval_body.
  destruct decision as [|d ds]; [discriminate|].
  cbn [check_array bind Utility.gen_kde].
  destruct (AUCP.metrics_auc _ _ _) as [tot_area|e]; cbn [bind]; [|discriminate].
  destruct (AUCP.scan _ _ _ _ _ _) as [c|e] eqn:Hs; cbn [bind]; [|discriminate].
  intros [= <- _]. exists c. split; [reflexivity|].
  destruct (scan_result _ _ _ _ _ Hs) as [->|Hin].
  - split; discriminate.
  - eapply np_linspace_unit, Hin.
Qed.

End AUCP_range.

Section FGD_range.

Variable kde : list Q -> Q -> Q.

Local Abbreviation eval := (FGD.eval kde).



End FGD_range.

Section MCST_search.

Variable shapiro_pvalue : list Q -> Q.

Local Abbreviation search := (MCST.search shapiro_pvalue).

Lemma search_best (decision rnd : list Q) (p_std : Q) (povr : list Q) :
  let p := fst (search decision rnd p_std povr) in
  (p_std <= p)%Q /\
  (forall r, In r rnd -> (shapiro_pvalue (decision ++ [r]) <= p)%Q) /\
  (p = p_std \/ exists r, In r rnd /\ p = shapiro_pvalue (decision ++ [r])) /\
  exists recorded,
    snd (search decision rnd p_std povr) = povr ++ recorded /\
    (forall r, In r recorded -> In r rnd) /\
    (recorded = [] <->
     forall r, In r rnd -> (shapiro_pvalue (decision ++ [r]) <= p_std)%Q).
Proof.
  revert p_std povr. induction rnd as [|r rest IH]; intros p_std povr; cbv zeta.
  - simpl. split; [apply Qle_refl|]. split; [tauto|]. split; [now left|].
    exists []. rewrite app_nil_r. repeat split; tauto.
  - cbn [MCST.search].
    destruct (Qgtb (shapiro_pvalue (decision ++ [r])) p_std) eqn:E.
    + apply Qgtb_gt in E.
      destruct (IH (shapiro_pvalue (decision ++ [r])) (povr ++ [r]))
        as (Hge & Hall & Hone & recorded & Hrec & Hsub & _).
      split; [eapply Qle_trans; [apply Qlt_le_weak, E | exact Hge]|].
      split; [intros r' [<-|Hr']; [exact Hge | now apply Hall]|].
      split.
      { right. destruct Hone as [Hone|(r' & Hr' & Hone)].
        - exists r. split; [now left | exact Hone].
        - exists r'. split; [now right | exact Hone]. }
      exists (r :: recorded). rewrite Hrec, <- app_assoc. split; [reflexivity|].
      split; [intros r' [<-|Hr']; [now left | right; now apply Hsub]|].
      split; [discriminate|].
      intros Hno. exfalso. apply (Qlt_not_le _ _ E). apply Hno. now left.
    + apply Qltb_nlt in E. apply Qnot_lt_le in E.
      destruct (IH p_std povr)
        as (Hge & Hall & Hone & recorded & Hrec & Hsub & Hiff).
      split; [exact Hge|].
      split; [intros r' [<-|Hr']; [eapply Qle_trans; [exact E | exact Hge]
                                  | now apply Hall]|].
      split.
      { destruct Hone as [Hone|(r' & Hr' & Hone)]; [now left|].
        right. exists r'. split; [now right | exact Hone]. }
      exists recorded. split; [exact Hrec|].
      split; [intros r' Hr'; right; now apply Hsub|].
      rewrite Hiff. split.
      * intros H r' [<-|Hr']; [exact E | now apply H].
      * intros H r' Hr'. apply H. now right.
Qed.

(** X19.  The loop of [MCST.eval] ends with the greatest p-value met: at
    least the p-value of the scores alone and that of every sample, and equal
    to one of them.  Every recorded sample is one of the samples, and none is
    recorded exactly when no sample's p-value is above that of the scores
    alone, in which case the threshold is the 1.1 of the [else] branch. *)
Theorem search_ends_with_the_best (decision rnd : list Q) :
  let p_std := shapiro_pvalue decision in
  let p := fst (search decision rnd p_std []) in
  let povr := snd (search decision rnd p_std []) in
  (p_std <= p)%Q /\
  (forall r, In r rnd -> (shapiro_pvalue (decision ++ [r]) <= p)%Q) /\
  (p = p_std \/ exists r, In r rnd /\ p = shapiro_pvalue (decision ++ [r])) /\
  (forall r, In r povr -> In r rnd) /\
  (povr = [] <->
   forall r, In r rnd -> (shapiro_pvalue (decision ++ [r]) <= p_std)%Q) /\
  (povr = [] -> MCST.min_or_default povr = (11 # 10)%Q) /\
  (povr <> [] -> In (MCST.min_or_default povr) rnd).
Proof.
  intros p_std p povr.
  destruct (search_best decision rnd p_std [])
    as (Hge & Hall & Hone & recorded & Hrec & Hsub & Hiff).
  fold p in Hge, Hall, Hone. fold povr in Hrec. cbn [app] in Hrec.
  rewrite Hrec. repeat split; try assumption.
  - apply Hiff.
  - apply Hiff.
  - intros ->. reflexivity.
  - intros Hne. apply Hsub.
    destruct recorded as [|x r]; [congruence|]. apply Qmin_list_in.
Qed.

End MCST_search.

Lemma eval_percentage_above_one_witness :
  exists x, (x == 0)%Q /\
    AUCP.eval Samples.tent_kde Samples.trapz AUCP.init [0; 1; 1; 1; 1]%Q
    = ({| AUCP.thresh_ := Some x |},
       Ok (Utility.cut (Utility.normalize [0; 1; 1; 1; 1]%Q) x)).
Proof.
  apply (@eval_percentage_above_one Samples.tent_kde Samples.trapz AUCP.init
           [0; 1; 1; 1; 1]%Q).
  - discriminate.
  - vm_compute. reflexivity.
  - vm_compute. reflexivity.
Defined.

Lemma aucp_threshold_in_unit_interval_witness :
  exists c,
    AUCP.thresh_ (fst (AUCP.eval Samples.tent_kde Samples.trapz AUCP.init
                         Samples.four_scores)) = Some c /\
    (0 <= c <= 1)%Q.
Proof.
  eapply (@aucp_threshold_in_unit_interval Samples.tent_kde Samples.trapz
            AUCP.init _ Samples.four_scores).
  vm_compute. reflexivity.
Defined.


Lemma eval_failure_keeps_threshold_witness :
  HIST.thresh_
    (fst (Samples.hist_eval
            {| HIST.nbins := Some 1%Z; HIST.method := HIST.yen;
               HIST.thresh_ := Some (1 # 2)%Q |} Samples.four_scores))
  = Some (1 # 2)%Q.
Proof.
  apply (@eval_failure_keeps_threshold Samples.log_standin Samples.sqrt_standin
           Samples.box_filter 10%nat
           {| HIST.nbins := Some 1%Z; HIST.method := HIST.yen;
              HIST.thresh_ := Some (1 # 2)%Q |} Samples.four_scores ValueError).
  vm_compute. reflexivity.
Defined.

Lemma eval_rejects_nonpositive_nbins_witness :
  Samples.hist_eval (HIST.init HIST.triangle (Some 0%Z)) Samples.four_scores
  = (HIST.init HIST.triangle (Some 0%Z), Raise ValueError).
Proof.
  apply (@eval_rejects_nonpositive_nbins Samples.log_standin Samples.sqrt_standin
           Samples.box_filter 10%nat (HIST.init HIST.triangle (Some 0%Z))
           Samples.four_scores 0%Z).
  - reflexivity.
  - lia.
Defined.

Lemma eval_otsu_yen_needs_two_bins_witness :
  exists labels,
    snd (Samples.hist_eval (HIST.init HIST.yen (Some 3%Z)) Samples.four_scores)
    = Ok labels.
Proof.
  apply (@eval_otsu_yen_needs_two_bins Samples.log_standin Samples.sqrt_standin
           Samples.box_filter 10%nat (HIST.init HIST.yen (Some 3%Z))
           Samples.four_scores 3%Z).
  - now right.
  - discriminate.
  - reflexivity.
  - lia.
Defined.

Lemma default_needs_three_scores_witness :
  exists labels,
    snd (Samples.hist_eval HIST.default Samples.seven_scores) = Ok labels.
Proof.
  apply (@default_needs_three_scores Samples.log_standin Samples.sqrt_standin
           Samples.box_filter 10%nat Samples.seven_scores).
  - cbn [length Samples.seven_scores]. lia.
  - cbn [length Samples.seven_scores]. lia.
Defined.
